(** * Fabric Warehouse data generator: a shallow embedding of [generator.py]

    The development follows the Python module top-down:
    - the interpreter state the module touches (its three global identifier
      counters, the [random]/[Faker] entropy, the pyodbc session, standard
      output and the wall clock) is a record [world];
    - Python statements are computations in a state-and-exception monad [M]
      over [world]; an exception keeps every mutation made before it;
    - [try]/[except]/[finally] are combinators of that monad.

    Integers are Python integers ([Z]); sequences are lists; SQL text and the
    rendered literals are strings. *)

From Stdlib Require Import ZArith QArith Qround Qabs Qpower Ascii Lia Lqa.
From stdpp Require Import base list strings pretty.

Local Open Scope Z_scope.

(** ** Exceptions and outcomes *)

(** The exception classes the module can meet.  [KeyboardInterrupt] derives
    from [BaseException] only, so an [except Exception] clause lets it pass. *)
Inductive exn : Type :=
  | ValueError (msg : string)
  | IndexError (msg : string)
  | ZeroDivisionError
  | StoreError (msg : string)      (* pyodbc.Error raised by the session *)
  | KeyboardInterrupt.

Definition is_Exception (e : exn) : bool :=
  match e with
  | KeyboardInterrupt => false
  | _ => true
  end.

Definition is_KeyboardInterrupt (e : exn) : bool :=
  match e with
  | KeyboardInterrupt => true
  | _ => false
  end.

(** [str(e)] *)
Definition str_exn (e : exn) : string :=
  match e with
  | ValueError m | IndexError m | StoreError m => m
  | ZeroDivisionError => "float division by zero"
  | KeyboardInterrupt => ""
  end.

Inductive outcome (A : Type) : Type :=
  | Returns (a : A)
  | Raises (e : exn).
Arguments Returns {A} a.
Arguments Raises {A} e.

(** ** The state of the run *)

Inductive entity : Type := Customers | Orders | Payments.

Global Instance entity_eq_dec : EqDecision entity.
Proof. solve_decision. Defined.

(** Lines written by [print_colored]; colours are dropped, counts are kept
    as integers instead of their thousands-separated rendering. *)
Inductive event : Type :=
  | Banner
  | Connected
  | TablesVerified
  | TablesError (cause : string)
  | Started
  | BatchStarting (batch_number : Z)
  | GeneratingRows (kind : entity) (count : Z)
  | Inserting (kind : entity)
  | Progress (kind : entity) (done total : Z)
  | InsertError (kind : entity) (cause : string)
  | BatchCompleted (batch_number elapsed : Z)
  | TotalInserted (customers orders payments : Z)
  | ConnectionError (cause : string)
  | StoppedByUser (batches customers orders payments : Z)
  | ErrorLine (cause : string)
  | ConnectionClosed.

(** The module-level globals [customer_id_counter], [order_id_counter] and
    [payment_id_counter]. *)
Record counters : Type := {
  customer_id_counter : Z;
  order_id_counter : Z;
  payment_id_counter : Z
}.

(** A source of readings from outside the program: an arbitrary tape and
    the number of readings taken so far.  One backs [random] and [Faker], one
    backs [time.time()]. *)
Record source : Type := {
  tape : nat → Z;
  drawn : nat
}.

(** What happens at the next blocking call. *)
Inductive fate : Type :=
  | Done                        (* the store serves the request *)
  | Refused (cause : string)    (* the store fails the request *)
  | Interrupted.                (* the operator's interrupt arrives *)

(** The pyodbc session, opened with autocommit off: executed statements are
    pending until [commit]; [rollback] and [close] discard what is pending. *)
Record connection : Type := {
  committed : list string;
  pending : list string;
  open_cursors : Z;
  commits : nat;
  rollbacks : nat;
  closes : nat
}.

(** [datetime.datetime] (naive). *)
Record datetime : Type := {
  year : Z; month : Z; day : Z;
  hour : Z; minute : Z; second : Z; microsecond : Z
}.

(** The [Faker] instance [fake]: what each provider returns for a raw draw.
    The name tables and the clock behind ['now'] belong to the library. *)
Record faker : Type := {
  first_name_of : Z → string;
  last_name_of : Z → string;
  date_time_between_of : Z → datetime
}.

(** Everything the module reads or writes while it runs.  [fates] scripts
    the coming blocking calls: each store request takes the next entry (an
    exhausted script serves every request), and [time.sleep] delivers an
    interrupt that is next in line.  [batch_number] is the local variable of
    [run_generator]; its handlers read it after the loop is left. *)
Record world : Type := {
  ids : counters;
  rnd : source;
  fake : faker;
  conn : connection;
  fates : list fate;
  stdout : list event;
  clock : source;         (* the readings of [time.time()], in ticks *)
  batch_number : Z
}.

Definition set_ids (f : counters → counters) (w : world) : world :=
  {| ids := f (ids w); rnd := rnd w; fake := fake w; conn := conn w;
     fates := fates w; stdout := stdout w; clock := clock w;
     batch_number := batch_number w |}.
Definition set_rnd (f : source → source) (w : world) : world :=
  {| ids := ids w; rnd := f (rnd w); fake := fake w; conn := conn w;
     fates := fates w; stdout := stdout w; clock := clock w;
     batch_number := batch_number w |}.
Definition set_conn (f : connection → connection) (w : world) : world :=
  {| ids := ids w; rnd := rnd w; fake := fake w; conn := f (conn w);
     fates := fates w; stdout := stdout w; clock := clock w;
     batch_number := batch_number w |}.
Definition set_fates (f : list fate → list fate) (w : world) : world :=
  {| ids := ids w; rnd := rnd w; fake := fake w; conn := conn w;
     fates := f (fates w); stdout := stdout w; clock := clock w;
     batch_number := batch_number w |}.
Definition set_stdout (f : list event → list event) (w : world) : world :=
  {| ids := ids w; rnd := rnd w; fake := fake w; conn := conn w;
     fates := fates w; stdout := f (stdout w); clock := clock w;
     batch_number := batch_number w |}.
Definition set_clock (f : source → source) (w : world) : world :=
  {| ids := ids w; rnd := rnd w; fake := fake w; conn := conn w;
     fates := fates w; stdout := stdout w; clock := f (clock w);
     batch_number := batch_number w |}.
Definition set_batch_number (f : Z → Z) (w : world) : world :=
  {| ids := ids w; rnd := rnd w; fake := fake w; conn := conn w;
     fates := fates w; stdout := stdout w; clock := clock w;
     batch_number := f (batch_number w) |}.

(** ** The monad of Python statements *)

Definition M (A : Type) : Type := world → outcome A * world.

Definition ret {A} (a : A) : M A := λ w, (Returns a, w).
Definition raise {A} (e : exn) : M A := λ w, (Raises e, w).
Definition bind {A B} (m : M A) (k : A → M B) : M B :=
  λ w, match m w with
       | (Returns a, w') => k a w'
       | (Raises e, w') => (Raises e, w')
       end.

Global Instance M_ret : MRet M := @ret.
Global Instance M_bind : MBind M := λ A B k m, bind m k.

Definition gets {A} (f : world → A) : M A := λ w, (Returns (f w), w).
Definition modify (f : world → world) : M unit := λ w, (Returns tt, f w).

(** [try: body / except ...]: [handler e] is the body of the first clause
    that matches [e], or [None] when no clause does. *)
Definition try_except {A} (body : M A) (handler : exn → option (M A)) : M A :=
  λ w, match body w with
       | (Returns a, w') => (Returns a, w')
       | (Raises e, w') =>
           match handler e with
           | Some h => h w'
           | None => (Raises e, w')
           end
       end.

(** [except Exception as e: h e] *)
Definition except_Exception {A} (h : exn → M A) (e : exn) : option (M A) :=
  if is_Exception e then Some (h e) else None.

(** [try: body / finally: cleanup]: the cleanup always runs; the outcome of
    the body survives unless the cleanup itself raises. *)
Definition try_finally {A} (body : M A) (cleanup : M unit) : M A :=
  λ w, match body w with
       | (r, w') =>
           match cleanup w' with
           | (Returns _, w'') => (r, w'')
           | (Raises e, w'') => (Raises e, w'')
           end
       end.

(** [for x in xs: body x] *)
Fixpoint for_each {A} (xs : list A) (body : A → M unit) : M unit :=
  match xs with
  | [] => ret tt
  | x :: xs' => bind (body x) (λ _, for_each xs' body)
  end.

(** [acc = []; for _ in range(n): acc.append(body())] *)
Fixpoint collect {A} (n : nat) (body : M A) : M (list A) :=
  match n with
  | O => ret []
  | S n' => bind body (λ a, bind (collect n' body) (λ rest, ret (a :: rest)))
  end.

Definition print_colored (e : event) : M unit :=
  modify (set_stdout (λ out, out ++ [e])).

(** ** Decimal digits *)

Definition digit (d : Z) : ascii := pretty_N_char (Z.to_N d).

(** The [w] low decimal digits of [n], most significant first: the
    zero-padded rendering [%0wd] of an [n] below [10 ^ w]. *)
Fixpoint zpad (w : nat) (n : Z) : string :=
  match w with
  | O => ""
  | S w' => zpad w' (n / 10) +:+ String (digit (n mod 10)) ""
  end.

(** ["0" * n] *)
Definition zeros (n : Z) : string := zpad (Z.to_nat n) 0.

(** ** Python floats

    A finite binary64 value is [mant * 2 ^ expo] with a 53-bit mantissa, in
    the encoding IEEE 754 gives it: normal values have
    [2^52 <= |mant| < 2^53], subnormal ones have [expo = -1074].  Infinities,
    NaN and the negative zero are left out: every float of the module lies
    between [0.0] and [5000.0]. *)
Module F64.

Record t : Type := mk { mant : Z; expo : Z }.

Definition to_Q (x : t) : Q := (inject_Z (mant x) * 2 ^ expo x)%Q.

(** [floor (log2 q)] for [0 < q]. *)
Definition ilog2 (q : Q) : Z :=
  let l := Z.log2 (Qnum q) - Z.log2 (Zpos (Qden q)) in
  if Qle_bool (2 ^ l) q then l else l - 1.

(** Nearest integer, ties to even. *)
Definition rhe (q : Q) : Z :=
  let f := Qfloor q in
  match (q - inject_Z f ?= 1 # 2)%Q with
  | Lt => f
  | Gt => f + 1
  | Eq => if Z.even f then f else f + 1
  end.

(** Round-to-nearest-even conversion of a positive rational. *)
Definition of_pos (q : Q) : t :=
  let e := Z.max (ilog2 q - 52) (-1074) in
  let m := rhe (q * 2 ^ (- e))%Q in
  if m =? 2 ^ 53 then mk (2 ^ 52) (e + 1) else mk m e.

Definition zero : t := mk 0 (-1074).

Definition of_Q (q : Q) : t :=
  match Qnum q with
  | Z0 => zero
  | Zpos _ => of_pos q
  | Zneg _ => let x := of_pos (- q)%Q in mk (- mant x) (expo x)
  end.

Definition of_Z (z : Z) : t := of_Q (inject_Z z).

(** The float operators: the exact result, rounded once. *)
Definition add (x y : t) : t := of_Q (to_Q x + to_Q y)%Q.
Definition sub (x y : t) : t := of_Q (to_Q x - to_Q y)%Q.
Definition mul (x y : t) : t := of_Q (to_Q x * to_Q y)%Q.

Definition le (x y : t) : Prop := (to_Q x <= to_Q y)%Q.
Definition leb (x y : t) : bool := Qle_bool (to_Q x) (to_Q y).

(** [round(x, ndigits)]: CPython renders [x] correctly rounded to
    [ndigits] decimals (ties to even on the exact binary value) and reads
    that decimal back. *)
Definition round (x : t) (ndigits : Z) : t :=
  of_Q (inject_Z (rhe (to_Q x * 10 ^ ndigits)%Q) / 10 ^ ndigits)%Q.

(** [10 ^ p] for an exponent of either sign. *)
Definition pow10 (p : Z) : Q := (10 ^ p)%Q.

(** The position of the decimal point: [10 ^ (decpt - 1) <= q < 10 ^ decpt]
    for [0 < q], found from the binary logarithm. *)
Definition decpt (q : Q) : Z :=
  let est := ilog2 q * 30103 / 100000 in
  if Qle_bool (pow10 est) q then
    if Qle_bool (pow10 (est + 1)) q then est + 2 else est + 1
  else est.

(** Does the decimal [v] read back as [x]? *)
Definition reads_as (x : t) (v : Q) : bool :=
  let y := of_Q v in (mant y =? mant x) && (expo y =? expo x).

(** The [n]-digit decimal [d * 10 ^ (decpt - n)] nearest to [q] among those
    that read back as [x], if there is one. *)
Definition candidate (x : t) (q : Q) (pt : Z) (n : Z) : option Z :=
  let s := pow10 (pt - n) in
  let lo := Qfloor (q / s) in
  let hi := lo + 1 in
  match reads_as x (inject_Z lo * s), reads_as x (inject_Z hi * s) with
  | true, true =>
      if Qle_bool (q - inject_Z lo * s) (inject_Z hi * s - q)
      then Some lo else Some hi
  | true, false => Some lo
  | false, true => Some hi
  | false, false => None
  end.

(** The shortest digit string that reads back as [x]: its digits as a
    number and their count, trying [n, n+1, ...] digits. *)
Fixpoint shortest (x : t) (q : Q) (pt : Z) (n : Z) (fuel : nat) : Z * Z :=
  match fuel with
  | O => (Qfloor (q / pow10 (pt - n)), n)
  | S fuel' =>
      match candidate x q pt n with
      | Some d => (d, n)
      | None => shortest x q pt (n + 1) fuel'
      end
  end.

(** [repr] of a positive float with digits [d] ([n] of them) and decimal
    point position [pt], as [float_repr_style = 'short'] lays it out. *)
Definition layout (d n pt : Z) : string :=
  if (pt <=? -4) || (16 <? pt) then
    let e := pt - 1 in
    zpad 1 (d / 10 ^ (n - 1))
    +:+ (if 1 <? n then "." +:+ zpad (Z.to_nat (n - 1)) d else "")
    +:+ "e" +:+ (if e <? 0 then "-" else "+")
    +:+ (if Z.abs e <? 10 then "0" else "") +:+ pretty (Z.abs e)
  else if pt <=? 0 then
    "0." +:+ zeros (- pt) +:+ zpad (Z.to_nat n) d
  else if pt <? n then
    zpad (Z.to_nat pt) (d / 10 ^ (n - pt)) +:+ "."
    +:+ zpad (Z.to_nat (n - pt)) d
  else
    zpad (Z.to_nat n) d +:+ zeros (pt - n) +:+ ".0".

(** [repr(x)], which is also [str(x)] and what an f-string field [{x}]
    without a format specification renders. *)
Definition repr (x : t) : string :=
  match mant x with
  | Z0 => "0.0"
  | _ =>
      let q := Qabs (to_Q x) in
      let ax := mk (Z.abs (mant x)) (expo x) in
      let pt := decpt q in
      let (d, n) := shortest ax q pt 1 17 in
      (if mant x <? 0 then "-" else "")
      +:+ (if d =? 10 ^ n then layout 1 1 (pt + 1) else layout d n pt)
  end.

End F64.

(** ** The [random] module and [Faker] *)

(** One raw draw from the tape. *)
Definition draw : M Z :=
  λ w, (Returns (tape (rnd w) (drawn (rnd w))),
        set_rnd (λ r, {| tape := tape r; drawn := S (drawn r) |}) w).

(** [random._randbelow(n)] for [0 < n]: a value in [0, n). *)
Definition randbelow (n : Z) : M Z :=
  r ← draw; mret (r `mod` n).

(** [random.randint(a, b)], that is [randrange(a, b + 1)]. *)
Definition randint (a b : Z) : M Z :=
  let width := b + 1 - a in
  if 0 <? width then r ← randbelow width; mret (a + r)
  else raise (ValueError "empty range for randrange()").

(** [random.choice(seq)] *)
Definition choice {A} (seq : list A) : M A :=
  match seq with
  | [] => raise (IndexError "Cannot choose from an empty sequence")
  | x :: _ =>
      i ← randbelow (Z.of_nat (length seq));
      mret (nth (Z.to_nat i) seq x)
  end.

(** The float [random.random()] makes of a raw draw: a multiple of
    [2 ^ -53] in [0.0, 1.0). *)
Definition unit_float (r : Z) : F64.t :=
  F64.of_Q (Qmake (r `mod` 2 ^ 53) (2 ^ 53)).

(** [random.random()] *)
Definition random : M F64.t :=
  r ← draw; mret (unit_float r).

(** [random.uniform(a, b)] is [a + (b - a) * self.random()]. *)
Definition uniform (a b : F64.t) : M F64.t :=
  r ← random; mret (F64.add a (F64.mul (F64.sub b a) r)).

Definition fake_first_name : M string :=
  r ← draw; f ← gets fake; mret (first_name_of f r).
Definition fake_last_name : M string :=
  r ← draw; f ← gets fake; mret (last_name_of f r).
(** [fake.date_time_between(start_date='-30d', end_date='now')] *)
Definition fake_date_time_between : M datetime :=
  r ← draw; f ← gets fake; mret (date_time_between_of f r).

(** ** Rows *)

Record customer : Type := {
  c_id : Z; c_first_name : string; c_last_name : string
}.

Record order : Type := {
  o_id : Z; o_customer_id : Z; o_order_date : datetime; o_status : string
}.

Record payment : Type := {
  p_id : Z; p_order_id : Z; p_method : string; p_status : string;
  p_amount : F64.t; p_created : datetime
}.

(** ** The generators *)

(** [range(count)] runs [count] times, and not at all for [count <= 0]. *)
Definition range_len (count : Z) : nat := Z.to_nat count.

Definition next_customer_id : M unit :=
  modify (set_ids (λ c,
    {| customer_id_counter := customer_id_counter c + 1;
       order_id_counter := order_id_counter c;
       payment_id_counter := payment_id_counter c |})).
Definition next_order_id : M unit :=
  modify (set_ids (λ c,
    {| customer_id_counter := customer_id_counter c;
       order_id_counter := order_id_counter c + 1;
       payment_id_counter := payment_id_counter c |})).
Definition next_payment_id : M unit :=
  modify (set_ids (λ c,
    {| customer_id_counter := customer_id_counter c;
       order_id_counter := order_id_counter c;
       payment_id_counter := payment_id_counter c + 1 |})).

(** The body of the loop of [generate_customers]. *)
Definition new_customer : M customer :=
  i ← gets (λ w, customer_id_counter (ids w));
  fn ← fake_first_name;
  ln ← fake_last_name;
  next_customer_id;;
  mret {| c_id := i; c_first_name := fn; c_last_name := ln |}.

Definition generate_customers (count : Z) : M (list customer) :=
  collect (range_len count) new_customer.

Definition order_statuses : list string :=
  ["pending"; "processing"; "shipped"; "delivered"; "cancelled"].

(** The body of the loop of [generate_orders]. *)
Definition new_order (max_customer_id : Z) : M order :=
  i ← gets (λ w, order_id_counter (ids w));
  cid ← randint 1 max_customer_id;
  dt ← fake_date_time_between;
  st ← choice order_statuses;
  next_order_id;;
  mret {| o_id := i; o_customer_id := cid; o_order_date := dt;
          o_status := st |}.

Definition generate_orders (count max_customer_id : Z) : M (list order) :=
  collect (range_len count) (new_order max_customer_id).

Definition payment_methods : list string :=
  ["credit_card"; "debit_card"; "paypal"; "bank_transfer"; "pix"].
Definition payment_statuses : list string :=
  ["pending"; "completed"; "failed"; "refunded"].

(** The body of the loop of [generate_payments]. *)
Definition new_payment (max_order_id : Z) : M payment :=
  i ← gets (λ w, payment_id_counter (ids w));
  oid ← randint 1 max_order_id;
  pm ← choice payment_methods;
  st ← choice payment_statuses;
  u ← uniform (F64.of_Z 10) (F64.of_Z 5000);
  dt ← fake_date_time_between;
  next_payment_id;;
  mret {| p_id := i; p_order_id := oid; p_method := pm; p_status := st;
          p_amount := F64.round u 2; p_created := dt |}.

Definition generate_payments (count max_order_id : Z) : M (list payment) :=
  collect (range_len count) (new_payment max_order_id).

(** The counter behind each kind of row, and its high-water mark: the last
    identifier issued, [0] before the first. *)
Definition counter_of (k : entity) (c : counters) : Z :=
  match k with
  | Customers => customer_id_counter c
  | Orders => order_id_counter c
  | Payments => payment_id_counter c
  end.

Definition high_water_mark (k : entity) (w : world) : Z :=
  counter_of k (ids w) - 1.

(** A generator call, and the identifiers of the rows it hands back (none
    when the call raises). *)
Inductive gen_call : Type :=
  | GenCustomers (count : Z)
  | GenOrders (count max_customer_id : Z)
  | GenPayments (count max_order_id : Z).

Definition kind_of (c : gen_call) : entity :=
  match c with
  | GenCustomers _ => Customers
  | GenOrders _ _ => Orders
  | GenPayments _ _ => Payments
  end.

Definition issued_by (c : gen_call) (w : world) : list Z * world :=
  match c with
  | GenCustomers n =>
      match generate_customers n w with
      | (Returns rows, w') => (c_id <$> rows, w')
      | (Raises _, w') => ([], w')
      end
  | GenOrders n m =>
      match generate_orders n m w with
      | (Returns rows, w') => (o_id <$> rows, w')
      | (Raises _, w') => ([], w')
      end
  | GenPayments n m =>
      match generate_payments n m w with
      | (Returns rows, w') => (p_id <$> rows, w')
      | (Raises _, w') => ([], w')
      end
  end.

(** Any sequence of generator calls in one process: the identifiers issued
    for kind [k], in the order of issue, and the state left. *)
Fixpoint issued (k : entity) (calls : list gen_call) (w : world)
    : list Z * world :=
  match calls with
  | [] => ([], w)
  | c :: rest =>
      let (here, w') := issued_by c w in
      let (later, w'') := issued k rest w' in
      (if decide (kind_of c = k) then here ++ later else later, w'')
  end.

(** ** The store session *)

(** The fate of the blocking request being issued: the head of the script,
    which moves on by one. *)
Definition next_fate : M fate :=
  λ w, (Returns (hd Done (fates w)), set_fates (drop 1) w).

(** [cursor = conn.cursor()] *)
Definition conn_cursor : M unit :=
  modify (set_conn (λ c,
    {| committed := committed c; pending := pending c;
       open_cursors := open_cursors c + 1; commits := commits c;
       rollbacks := rollbacks c; closes := closes c |})).

(** [cursor.close()] *)
Definition cursor_close : M unit :=
  modify (set_conn (λ c,
    {| committed := committed c; pending := pending c;
       open_cursors := open_cursors c - 1; commits := commits c;
       rollbacks := rollbacks c; closes := closes c |})).

(** [cursor.execute(sql)]: a served statement joins the open transaction; a
    refused or interrupted one leaves no trace of its own. *)
Definition cursor_execute (sql : string) : M unit :=
  f ← next_fate;
  match f with
  | Done =>
      modify (set_conn (λ c,
        {| committed := committed c; pending := pending c ++ [sql];
           open_cursors := open_cursors c; commits := commits c;
           rollbacks := rollbacks c; closes := closes c |}))
  | Refused cause => raise (StoreError cause)
  | Interrupted => raise KeyboardInterrupt
  end.

(** [conn.commit()] *)
Definition conn_commit : M unit :=
  f ← next_fate;
  match f with
  | Done =>
      modify (set_conn (λ c,
        {| committed := committed c ++ pending c; pending := [];
           open_cursors := open_cursors c; commits := S (commits c);
           rollbacks := rollbacks c; closes := closes c |}))
  | Refused cause => raise (StoreError cause)
  | Interrupted => raise KeyboardInterrupt
  end.

(** [conn.rollback()] *)
Definition conn_rollback : M unit :=
  modify (set_conn (λ c,
    {| committed := committed c; pending := [];
       open_cursors := open_cursors c; commits := commits c;
       rollbacks := S (rollbacks c); closes := closes c |})).

(** [conn.close()]: releases the session; uncommitted work is discarded. *)
Definition conn_close : M unit :=
  modify (set_conn (λ c,
    {| committed := committed c; pending := [];
       open_cursors := open_cursors c; commits := commits c;
       rollbacks := rollbacks c; closes := S (closes c) |})).

(** ** [range] and slices *)

Fixpoint range_up (fuel : nat) (i stop step : Z) : list Z :=
  match fuel with
  | O => []
  | S fuel' =>
      if i <? stop then i :: range_up fuel' (i + step) stop step else []
  end.

Fixpoint range_down (fuel : nat) (i stop step : Z) : list Z :=
  match fuel with
  | O => []
  | S fuel' =>
      if stop <? i then i :: range_down fuel' (i + step) stop step else []
  end.

(** [range(start, stop, step)]; every step moves by at least one, so
    [|stop - start|] rounds of fuel reach the end. *)
Definition py_range (start stop step : Z) : M (list Z) :=
  if step =? 0 then raise (ValueError "range() arg 3 must not be zero")
  else if 0 <? step
  then mret (range_up (Z.to_nat (stop - start)) start stop step)
  else mret (range_down (Z.to_nat (start - stop)) start stop step).

(** A slice bound brought into [0, len]. *)
Definition slice_index (len i : Z) : Z :=
  if i <? 0 then Z.max (i + len) 0 else Z.min i len.

(** [l[a:b]] *)
Definition py_slice {A} (l : list A) (a b : Z) : list A :=
  let len := Z.of_nat (length l) in
  let lo := slice_index len a in
  let hi := slice_index len b in
  take (Z.to_nat (hi - lo)) (drop (Z.to_nat lo) l).

(** ** Literals *)

(** [dt.strftime('%Y-%m-%d %H:%M:%S')] as CPython gives it on Linux, where
    the C library formats the fields: [%m], [%d], [%H], [%M] and [%S] are
    zero-padded to two digits, and [%Y] is the year in decimal without
    padding (['999'] for the year 999). *)
Definition strftime (dt : datetime) : string :=
  pretty (year dt) +:+ "-" +:+ zpad 2 (month dt) +:+ "-" +:+ zpad 2 (day dt)
  +:+ " " +:+ zpad 2 (hour dt) +:+ ":" +:+ zpad 2 (minute dt)
  +:+ ":" +:+ zpad 2 (second dt).

(** [sep.join(parts)] *)
Definition join (sep : string) (parts : list string) : string :=
  String.concat sep parts.

Definition render_customer (c : customer) : string :=
  "(" +:+ pretty (c_id c) +:+ ", '" +:+ c_first_name c +:+ "', '"
  +:+ c_last_name c +:+ "')".

Definition render_order (o : order) : string :=
  "(" +:+ pretty (o_id o) +:+ ", " +:+ pretty (o_customer_id o) +:+ ", '"
  +:+ strftime (o_order_date o) +:+ "', '" +:+ o_status o +:+ "')".

Definition render_payment (p : payment) : string :=
  "(" +:+ pretty (p_id p) +:+ ", " +:+ pretty (p_order_id p) +:+ ", '"
  +:+ p_method p +:+ "', '" +:+ p_status p +:+ "', "
  +:+ F64.repr (p_amount p) +:+ ", '" +:+ strftime (p_created p) +:+ "')".

(** ** Reading a timestamp literal back

    [datetime.strptime(s, '%Y-%m-%d %H:%M:%S')] as the Python library
    defines it: the format is compiled to the regular expression

      [(?P<Y>\d\d\d\d)-(?P<m>1[0-2]|0[1-9]|[1-9])-(?P<d>3[0-1]|[1-2]\d|0[1-9]|[1-9]| [1-9])\s+(?P<H>2[0-3]|[0-1]\d|\d):(?P<M>[0-5]\d|\d):(?P<S>6[0-1]|[0-5]\d|\d)]

    which is matched at the start of the string; the text must be consumed
    whole, the groups are read with [int] and the fields are handed to the
    [datetime] constructor, which checks them.  A matcher is the list of its
    matches in the order backtracking tries them, each with the text it
    matched and the text that is left. *)

Definition code (c : ascii) : Z := Z.of_N (N_of_ascii c).

Definition between (lo hi c : ascii) : bool :=
  (code lo <=? code c) && (code c <=? code hi).

Definition is_digit : ascii → bool := between "0" "9".

(** [\s] on the characters below 128. *)
Definition is_space (c : ascii) : bool :=
  (code c =? 32) || between "009" "013" c || between "028" "031" c.

Definition re : Type := string → list (string * string).

Definition re_class (ok : ascii → bool) : re :=
  λ s, match s with
       | String c r => if ok c then [(String c "", r)] else []
       | EmptyString => []
       end.

Definition re_chr (c : ascii) : re := re_class (λ x, bool_decide (x = c)).

Definition re_seq (p q : re) : re :=
  λ s, '(a, s1) ← p s; '(b, s2) ← q s1; [(a +:+ b, s2)].

Definition re_alt (ps : list re) : re := λ s, p ← ps; p s.

(** [c+] for a class [c]: greedy, the longest run first. *)
Fixpoint re_plus (ok : ascii → bool) (s : string) : list (string * string) :=
  match s with
  | String c r =>
      if ok c
      then ((λ '(a, r'), (String c a, r')) <$> re_plus ok r)
           ++ [(String c "", r)]
      else []
  | EmptyString => []
  end.

Definition re_d1 : re := re_class is_digit.
Definition re_Y : re := re_seq re_d1 (re_seq re_d1 (re_seq re_d1 re_d1)).
Definition re_m : re :=
  re_alt [re_seq (re_chr "1") (re_class (between "0" "2"));
          re_seq (re_chr "0") (re_class (between "1" "9"));
          re_class (between "1" "9")].
Definition re_d : re :=
  re_alt [re_seq (re_chr "3") (re_class (between "0" "1"));
          re_seq (re_class (between "1" "2")) re_d1;
          re_seq (re_chr "0") (re_class (between "1" "9"));
          re_class (between "1" "9");
          re_seq (re_chr " ") (re_class (between "1" "9"))].
Definition re_H : re :=
  re_alt [re_seq (re_chr "2") (re_class (between "0" "3"));
          re_seq (re_class (between "0" "1")) re_d1;
          re_d1].
Definition re_M : re :=
  re_alt [re_seq (re_class (between "0" "5")) re_d1; re_d1].
Definition re_S : re :=
  re_alt [re_seq (re_chr "6") (re_class (between "0" "1"));
          re_seq (re_class (between "0" "5")) re_d1;
          re_d1].

(** What the groups of a match hold. *)
Record groups : Type := {
  g_Y : string; g_m : string; g_d : string;
  g_H : string; g_M : string; g_S : string
}.

Definition format_regex (s : string) : list (groups * string) :=
  '(tY, s) ← re_Y s;
  '(_, s) ← re_chr "-" s;
  '(tm, s) ← re_m s;
  '(_, s) ← re_chr "-" s;
  '(td, s) ← re_d s;
  '(_, s) ← re_plus is_space s;
  '(tH, s) ← re_H s;
  '(_, s) ← re_chr ":" s;
  '(tM, s) ← re_M s;
  '(_, s) ← re_chr ":" s;
  '(tS, s) ← re_S s;
  [({| g_Y := tY; g_m := tm; g_d := td;
       g_H := tH; g_M := tM; g_S := tS |}, s)].

Fixpoint lstrip (s : string) : string :=
  match s with
  | String c r => if is_space c then lstrip r else s
  | EmptyString => ""
  end.

Fixpoint int_digits (acc : Z) (s : string) : Z :=
  match s with
  | String c r => int_digits (acc * 10 + (code c - 48)) r
  | EmptyString => acc
  end.

(** [int(text)] on the text of a group: digits, after a blank at most. *)
Definition py_int (s : string) : Z := int_digits 0 (lstrip s).

Definition is_leap (y : Z) : bool :=
  (y mod 4 =? 0) && (negb (y mod 100 =? 0) || (y mod 400 =? 0)).

Definition days_in_month (y m : Z) : Z :=
  if m =? 2 then (if is_leap y then 29 else 28)
  else if (m =? 4) || (m =? 6) || (m =? 9) || (m =? 11) then 30
  else 31.

(** The checks of the [datetime] constructor. *)
Definition check_datetime (dt : datetime) : bool :=
  (1 <=? year dt) && (year dt <=? 9999)
  && (1 <=? month dt) && (month dt <=? 12)
  && (1 <=? day dt) && (day dt <=? days_in_month (year dt) (month dt))
  && (0 <=? hour dt) && (hour dt <=? 23)
  && (0 <=? minute dt) && (minute dt <=? 59)
  && (0 <=? second dt) && (second dt <=? 59)
  && (0 <=? microsecond dt) && (microsecond dt <=? 999999).

(** [datetime(y, m, d, H, M, S, us)]; [None] is its [ValueError]. *)
Definition datetime_new (y m d H M S us : Z) : option datetime :=
  let dt := {| year := y; month := m; day := d;
               hour := H; minute := M; second := S; microsecond := us |} in
  if check_datetime dt then Some dt else None.

(** [None] stands for the [ValueError] of a text that does not match the
    format, of unconverted data that remains, or of fields that are no
    date. *)
Definition strptime (s : string) : option datetime :=
  '(g, rest) ← head (format_regex s);
  match rest with
  | EmptyString =>
      datetime_new (py_int (g_Y g)) (py_int (g_m g)) (py_int (g_d g))
        (py_int (g_H g)) (py_int (g_M g)) (py_int (g_S g)) 0
  | String _ _ => None
  end.

(** [dt.replace(microsecond=0)] *)
Definition whole_seconds (dt : datetime) : datetime :=
  {| year := year dt; month := month dt; day := day dt;
     hour := hour dt; minute := minute dt; second := second dt;
     microsecond := 0 |}.

(** ** The loaders

    [batch_insert_customers], [batch_insert_orders] and
    [batch_insert_payments] are one body over three row types: they differ
    in the statement head and in how a row is rendered. *)
Section Loader.

Context {row : Type}.
Variable kind : entity.
Variable insert_into : string.
Variable render : row → string.

(** The statement built for one chunk. *)
Definition chunk_sql (chunk : list row) : string :=
  insert_into +:+ join ", " (render <$> chunk).

(** One turn of the [for i in range(0, total, chunk_size)] loop. *)
Definition insert_chunk (chunk_size : Z) (rows : list row) (i : Z) : M unit :=
  let total := Z.of_nat (length rows) in
  let chunk := py_slice rows i (i + chunk_size) in
  cursor_execute (chunk_sql chunk);;
  if (i + chunk_size) `mod` 5000 =? 0
  then print_colored (Progress kind (Z.min (i + chunk_size) total) total)
  else mret tt.

Definition batch_insert (chunk_size : Z) (rows : list row) : M unit :=
  conn_cursor;;
  try_finally
    (try_except
       (let total := Z.of_nat (length rows) in
        offsets ← py_range 0 total chunk_size;
        for_each offsets (insert_chunk chunk_size rows);;
        conn_commit)
       (except_Exception (λ e,
          conn_rollback;;
          print_colored (InsertError kind (str_exn e));;
          raise e)))
    cursor_close.

End Loader.

(** The configuration read from the environment at import time. *)
Record config : Type := {
  BATCH_SIZE : Z;
  BATCH_INTERVAL : Z;
  CHUNK_SIZE : Z
}.

(** The values taken when the environment sets none of them. *)
Definition default_config : config :=
  {| BATCH_SIZE := 10000; BATCH_INTERVAL := 5; CHUNK_SIZE := 1000 |}.

Definition batch_insert_customers (cfg : config) (customers : list customer)
    : M unit :=
  batch_insert Customers
    "INSERT INTO customers (ID, FIRST_NAME, LAST_NAME) VALUES "
    render_customer (CHUNK_SIZE cfg) customers.

Definition batch_insert_orders (cfg : config) (orders : list order) : M unit :=
  batch_insert Orders
    "INSERT INTO orders (ID, USER_ID, ORDER_DATE, STATUS) VALUES "
    render_order (CHUNK_SIZE cfg) orders.

Definition batch_insert_payments (cfg : config) (payments : list payment)
    : M unit :=
  batch_insert Payments
    "INSERT INTO payments (ID, ORDERID, PAYMENTMETHOD, STATUS, AMOUNT, CREATED) VALUES "
    render_payment (CHUNK_SIZE cfg) payments.

(** ** The scheduler *)

(** [create_connection()]: the connection string, the token and the
    handshake belong to collaborators; what the run sees is whether the
    session opens. *)
Definition create_connection : M unit :=
  try_except
    (f ← next_fate;
     match f with
     | Done => print_colored Connected
     | Refused cause => raise (StoreError cause)
     | Interrupted => raise KeyboardInterrupt
     end)
    (except_Exception (λ e,
       print_colored (ConnectionError (str_exn e));; raise e)).

Definition ddl_customers : string :=
  "IF NOT EXISTS (SELECT * FROM sys.tables WHERE name = 'customers') BEGIN CREATE TABLE customers (ID INT NOT NULL, FIRST_NAME VARCHAR(8000), LAST_NAME VARCHAR(8000)) END".
Definition ddl_orders : string :=
  "IF NOT EXISTS (SELECT * FROM sys.tables WHERE name = 'orders') BEGIN CREATE TABLE orders (ID INT NOT NULL, USER_ID INT, ORDER_DATE DATETIME2(6), STATUS VARCHAR(8000)) END".
Definition ddl_payments : string :=
  "IF NOT EXISTS (SELECT * FROM sys.tables WHERE name = 'payments') BEGIN CREATE TABLE payments (ID INT NOT NULL, ORDERID INT, PAYMENTMETHOD VARCHAR(8000), STATUS VARCHAR(8000), AMOUNT DECIMAL(18, 2), CREATED DATETIME2(6)) END".

Definition create_tables_if_not_exist : M unit :=
  conn_cursor;;
  try_finally
    (try_except
       (cursor_execute ddl_customers;;
        cursor_execute ddl_orders;;
        cursor_execute ddl_payments;;
        conn_commit;;
        print_colored TablesVerified)
       (except_Exception (λ e,
          print_colored (TablesError (str_exn e));; raise e)))
    cursor_close.

(** [time.time()] *)
Definition time_time : M Z :=
  λ w, (Returns (tape (clock w) (drawn (clock w))),
        set_clock (λ c, {| tape := tape c; drawn := S (drawn c) |}) w).

(** [time.sleep(secs)] *)
Definition time_sleep (secs : Z) : M unit :=
  if secs <? 0 then raise (ValueError "sleep length must be non-negative")
  else λ w, match fates w with
            | Interrupted :: rest =>
                (Raises KeyboardInterrupt, set_fates (λ _, rest) w)
            | _ => (Returns tt, w)
            end.

(** The high-water marks the summaries print. *)
Definition customers_so_far (w : world) : Z := customer_id_counter (ids w) - 1.
Definition orders_so_far (w : world) : Z := order_id_counter (ids w) - 1.
Definition payments_so_far (w : world) : Z := payment_id_counter (ids w) - 1.

(** The body of [while True]. *)
Definition cycle (cfg : config) : M unit :=
  modify (set_batch_number (λ n, n + 1));;
  start_time ← time_time;
  n ← gets batch_number;
  print_colored (BatchStarting n);;
  print_colored (GeneratingRows Customers (BATCH_SIZE cfg));;
  customers ← generate_customers (BATCH_SIZE cfg);
  print_colored (GeneratingRows Orders (BATCH_SIZE cfg));;
  max_customer_id ← gets customers_so_far;
  orders ← generate_orders (BATCH_SIZE cfg) max_customer_id;
  print_colored (GeneratingRows Payments (BATCH_SIZE cfg));;
  max_order_id ← gets orders_so_far;
  payments ← generate_payments (BATCH_SIZE cfg) max_order_id;
  print_colored (Inserting Customers);;
  batch_insert_customers cfg customers;;
  print_colored (Inserting Orders);;
  batch_insert_orders cfg orders;;
  print_colored (Inserting Payments);;
  batch_insert_payments cfg payments;;
  end_time ← time_time;
  let elapsed_time := end_time - start_time in
  (* rows_per_second = (BATCH_SIZE * 3) / elapsed_time *)
  (if elapsed_time =? 0 then raise ZeroDivisionError else mret tt);;
  print_colored (BatchCompleted n elapsed_time);;
  c ← gets customers_so_far;
  o ← gets orders_so_far;
  p ← gets payments_so_far;
  print_colored (TotalInserted c o p);;
  time_sleep (BATCH_INTERVAL cfg).

(** [while True: cycle], watched for [fuel] turns: the exception that leaves
    the loop and the state it leaves, or [None] while the loop is still
    running. *)
Fixpoint loop (cfg : config) (fuel : nat) (w : world) : option (exn * world) :=
  match fuel with
  | O => None
  | S fuel' =>
      match cycle cfg w with
      | (Returns _, w') => loop cfg fuel' w'
      | (Raises e, w') => Some (e, w')
      end
  end.

(** What precedes the [try] statement of [run_generator]. *)
Definition startup : M unit :=
  print_colored Banner;;
  create_connection;;
  create_tables_if_not_exist;;
  print_colored Started;;
  modify (set_batch_number (λ _, 0)).

(** The [except] clauses of [run_generator]. *)
Definition run_handlers (e : exn) : option (M unit) :=
  if is_KeyboardInterrupt e then
    Some (n ← gets batch_number;
          c ← gets customers_so_far;
          o ← gets orders_so_far;
          p ← gets payments_so_far;
          print_colored (StoppedByUser n c o p))
  else if is_Exception e then
    Some (print_colored (ErrorLine (str_exn e));; raise e)
  else None.

(** The [finally] clause of [run_generator]. *)
Definition run_finally : M unit :=
  conn_close;; print_colored ConnectionClosed.

(** [run_generator()], watched for [fuel] turns of its loop: how the call
    ends and the state it leaves, or [None] while it is still running. *)
Definition run_generator (cfg : config) (fuel : nat) (w : world)
    : option (outcome unit * world) :=
  match startup w with
  | (Raises e, w') => Some (Raises e, w')
  | (Returns _, w') =>
      match loop cfg fuel w' with
      | None => None
      | Some (e, w'') =>
          Some (try_finally (try_except (raise e) run_handlers) run_finally w'')
      end
  end.

(** ** The state at import time *)

Definition initial_counters : counters :=
  {| customer_id_counter := 1; order_id_counter := 1;
     payment_id_counter := 1 |}.

Definition fresh_connection : connection :=
  {| committed := []; pending := []; open_cursors := 0;
     commits := 0; rollbacks := 0; closes := 0 |}.

(** The world as the module finds it: counters at 1, nothing drawn, an
    untouched session. *)
Definition boot (draws : nat → Z) (f : faker) (script : list fate)
    (ticks : nat → Z) : world :=
  {| ids := initial_counters;
     rnd := {| tape := draws; drawn := 0 |};
     fake := f;
     conn := fresh_connection;
     fates := script;
     stdout := [];
     clock := {| tape := ticks; drawn := 0 |};
     batch_number := 0 |}.

(** A small [Faker] and sample tapes, for running the model. *)
Definition sample_faker : faker :=
  {| first_name_of := λ r, if Z.even r then "Ana" else "Bruno";
     last_name_of := λ r, if Z.even r then "Silva" else "Costa";
     date_time_between_of := λ r,
       {| year := 2024; month := 1 + r `mod` 12; day := 1 + r `mod` 28;
          hour := r `mod` 24; minute := r `mod` 60; second := r `mod` 60;
          microsecond := r `mod` 1000000 |} |}.

Definition sample_draws (i : nat) : Z := 7919 * Z.of_nat i + 13.
Definition sample_ticks (i : nat) : Z := 1000 * Z.of_nat i.

Definition sample_world (script : list fate) : world :=
  boot sample_draws sample_faker script sample_ticks.

(** [n] customer rows with the identifiers [1 .. n]. *)
Definition sample_customers (n : Z) : list customer :=
  (λ i, {| c_id := i; c_first_name := "Ana"; c_last_name := "Silva" |})
    <$> seqZ 1 n.

Definition sample_config (batch chunk : Z) : config :=
  {| BATCH_SIZE := batch; BATCH_INTERVAL := 0; CHUNK_SIZE := chunk |}.

(** ** Vocabulary of the statements *)

(** A loop body hands out the current identifier of kind [k], moves that
    counter by one and no other, and builds a row satisfying [P]. *)
Definition issues {A} (k : entity) (key : A → Z) (P : A → Prop)
    (body : M A) : Prop :=
  ∀ w, ∃ a w',
    body w = (Returns a, w')
    ∧ key a = counter_of k (ids w)
    ∧ P a
    ∧ counter_of k (ids w') = counter_of k (ids w) + 1
    ∧ ∀ k', k' ≠ k → counter_of k' (ids w') = counter_of k' (ids w).

(** What one generator call issues: a run of consecutive identifiers that
    starts at the counter of its kind. *)
Definition consecutive (k : entity) (log : list Z) (w w' : world) : Prop :=
  log = seqZ (counter_of k (ids w))
             (counter_of k (ids w') - counter_of k (ids w))
  ∧ counter_of k (ids w) ≤ counter_of k (ids w').

(** The offsets [range(0, total, chunk_size)] yields for a positive chunk
    size, and the chunks the loop of a loader cuts at them. *)
Definition offsets (total chunk_size : Z) : list Z :=
  range_up (Z.to_nat (total - 0)) 0 total chunk_size.

Definition chunk_at {A} (rows : list A) (chunk_size i : Z) : list A :=
  py_slice rows i (i + chunk_size).

Definition chunks {A} (rows : list A) (chunk_size : Z) : list (list A) :=
  chunk_at rows chunk_size <$> offsets (Z.of_nat (length rows)) chunk_size.

(** [ceil(r / c)] for a positive [c]. *)
Definition ceil_div (r c : Z) : Z := (r + c - 1) / c.

(** The progress line, if any, that follows the chunk cut at offset [i]. *)
Definition progress_of (kind : entity) (chunk_size total i : Z) : list event :=
  if (i + chunk_size) `mod` 5000 =? 0
  then [Progress kind (Z.min (i + chunk_size) total) total]
  else [].

(** The statements and the progress lines of the chunks cut at the offsets
    [os]. *)
Definition sqls_at {row} (insert_into : string) (render : row → string)
    (rows : list row) (chunk_size : Z) (os : list Z) : list string :=
  (λ i, chunk_sql insert_into render (chunk_at rows chunk_size i)) <$> os.

Definition progress_at {row} (kind : entity) (rows : list row)
    (chunk_size : Z) (os : list Z) : list event :=
  os ≫= progress_of kind chunk_size (Z.of_nat (length rows)).

(** Three ways a step changes the world: [n] blocking requests were issued,
    statements joined the open transaction, lines were printed. *)
Definition served (n : nat) (w : world) : world := set_fates (drop n) w.

Definition executed (sqls : list string) (w : world) : world :=
  set_conn (λ c,
    {| committed := committed c; pending := pending c ++ sqls;
       open_cursors := open_cursors c; commits := commits c;
       rollbacks := rollbacks c; closes := closes c |}) w.

Definition printed (evs : list event) (w : world) : world :=
  set_stdout (λ out, out ++ evs) w.

(** The first [n] coming requests are all served. *)
Definition all_served (n : nat) (w : world) : Prop :=
  Forall (λ f, f = Done) (take n (fates w)).

(** The amount [generate_payments] computes from the raw draw [r]:
    [round(random.uniform(10.0, 5000.0), 2)]. *)
Definition amount_of_draw (r : Z) : F64.t :=
  F64.round
    (F64.add (F64.of_Z 10)
       (F64.mul (F64.sub (F64.of_Z 5000) (F64.of_Z 10)) (unit_float r))) 2.

(** The exponent [F64.of_pos] gives a positive rational. *)
Definition expo_of (q : Q) : Z := Z.max (F64.ilog2 q - 52) (-1074).

(** The cents of an amount: [round(x, 2)] reads this many hundredths
    back. *)
Definition cents_of (x : F64.t) : Z := F64.rhe (F64.to_Q x * 10 ^ 2)%Q.

(** The largest [j'] up to [j] with [10 ^ j'] dividing [c]. *)
Fixpoint trailing (c : Z) (j : nat) : nat :=
  match j with
  | O => O
  | S j' => if c `mod` 10 ^ Z.of_nat j =? 0 then j else trailing c j'
  end.

(** The number of digits before the point of [c] cents, for
    [1000 <= c <= 500000]. *)
Definition pt_of (c : Z) : Z :=
  if c <? 10000 then 2 else if c <? 100000 then 3 else 4.

(** [c] cents written the short way: the whole part, a point, and the
    hundredths without a closing zero (one digit when the cents are a
    multiple of ten, two otherwise). *)
Definition cents_literal (c : Z) : string :=
  zpad (Z.to_nat (pt_of c)) (c / 100) +:+ "." +:+
  (if c `mod` 10 =? 0 then zpad 1 (c / 10) else zpad 2 c).

(** The number of characters after the first point of a literal. *)
Fixpoint fraction_digits (s : string) : nat :=
  match s with
  | EmptyString => O
  | String c r =>
      if bool_decide (c = "."%char) then String.length r
      else fraction_digits r
  end.

(** A tape whose every draw is [0]: [random.random()] returns [0.0]. *)
Definition zero_draws (i : nat) : Z := 0.


(** * Properties *)

(** ** Running the monad *)

(** Floats are computed by [vm_compute] where a value is needed, never
    unfolded while a statement is simplified. *)
Arguments F64.of_Q : simpl never.
Arguments F64.of_Z : simpl never.
Arguments F64.add : simpl never.
Arguments F64.sub : simpl never.
Arguments F64.mul : simpl never.
Arguments F64.round : simpl never.
Arguments F64.repr : simpl never.
Arguments unit_float : simpl never.

Ltac unfold_m :=
  unfold mbind, M_bind, bind, mret, M_ret, ret, gets, modify, raise in *.

Lemma bind_returns {A B} (m : M A) (k : A → M B) a w w' :
  m w = (Returns a, w') → bind m k w = k a w'.
Proof. intros H. unfold bind. by rewrite H. Qed.

Lemma bind_raises {A B} (m : M A) (k : A → M B) e w w' :
  m w = (Raises e, w') → bind m k w = (Raises e, w').
Proof. intros H. unfold bind. by rewrite H. Qed.

(** ** The generators *)

Section Generators.

Implicit Types (w : world) (k : entity).

Lemma collect_issues {A} k (key : A → Z) P (body : M A) :
  issues k key P body →
  ∀ n w, ∃ l w',
    collect n body w = (Returns l, w')
    ∧ length l = n
    ∧ key <$> l = seqZ (counter_of k (ids w)) (Z.of_nat n)
    ∧ Forall P l
    ∧ counter_of k (ids w') = counter_of k (ids w) + Z.of_nat n
    ∧ ∀ k', k' ≠ k → counter_of k' (ids w') = counter_of k' (ids w).
Proof.
  intros Hbody n. induction n as [|n IH]; intros w.
  - exists [], w. simpl. repeat split; auto with lia.
  - destruct (Hbody w) as (a & w1 & Ha & Hkey & HP & Hk & Hother).
    destruct (IH w1) as (l & w2 & Hl & Hlen & Hseq & HF & Hk2 & Hother2).
    exists (a :: l), w2. cbn [collect].
    rewrite (bind_returns _ _ _ _ _ Ha), (bind_returns _ _ _ _ _ Hl).
    repeat split.
    + simpl. by rewrite Hlen.
    + rewrite fmap_cons, Hseq, Hkey, Hk.
      rewrite (seqZ_cons _ (Z.of_nat (S n))) by lia.
      do 2 f_equal; lia.
    + by constructor.
    + lia.
    + intros k' Hk'. rewrite Hother2, Hother; auto.
Qed.

Lemma randint_returns a b w :
  a ≤ b →
  ∃ r w', randint a b w = (Returns r, w') ∧ a ≤ r ≤ b
          ∧ ids w' = ids w ∧ fake w' = fake w.
Proof.
  intros Hab. unfold randint.
  destruct (Z.ltb_spec 0 (b + 1 - a)) as [Hw|]; [|lia].
  unfold randbelow, draw. unfold_m. simpl.
  eexists _, _. split; [reflexivity|]. split; [|done].
  pose proof (Z.mod_pos_bound (tape (rnd w) (drawn (rnd w))) (b + 1 - a) Hw).
  lia.
Qed.

Lemma randint_raises a b w :
  b < a → randint a b w = (Raises (ValueError "empty range for randrange()"), w).
Proof.
  intros Hab. unfold randint.
  by destruct (Z.ltb_spec 0 (b + 1 - a)) as [Hw|]; [lia|].
Qed.

Lemma new_customer_issues : issues Customers c_id (λ _, True) new_customer.
Proof.
  intros w. eexists _, _. split; [reflexivity|]. simpl.
  repeat split; auto. by intros [] ?.
Qed.

Lemma new_order_issues m :
  1 ≤ m → issues Orders o_id (λ o, 1 ≤ o_customer_id o ≤ m) (new_order m).
Proof.
  intros Hm w. unfold new_order.
  destruct (randint_returns 1 m w Hm) as (r & w1 & Hr & Hrange & Hids & _).
  unfold_m. simpl. rewrite Hr. simpl.
  eexists _, _. split; [reflexivity|]. simpl. rewrite Hids.
  repeat split; auto; try lia. by intros [] ?.
Qed.

Lemma choice_returns {A} (x : A) (xs : list A) w :
  ∃ a w', choice (x :: xs) w = (Returns a, w')
          ∧ ids w' = ids w ∧ fake w' = fake w.
Proof. eexists _, _. split; [reflexivity|]. done. Qed.

Lemma new_payment_issues m :
  1 ≤ m →
  issues Payments p_id
    (λ p, 1 ≤ p_order_id p ≤ m ∧ ∃ r, p_amount p = amount_of_draw r)
    (new_payment m).
Proof.
  intros Hm w. unfold new_payment.
  destruct (randint_returns 1 m w Hm) as (r & w1 & Hr & Hrange & Hids & _).
  unfold_m. cbn [mbind M_bind bind]. rewrite Hr.
  unfold choice, uniform, random, randbelow, draw, fake_date_time_between,
    next_payment_id.
  unfold_m.
  cbn -[F64.round F64.add F64.mul F64.sub F64.of_Z unit_float Z.modulo nth].
  eexists _, _. split; [reflexivity|].
  cbn [p_id p_order_id p_amount ids set_ids set_rnd counter_of
       payment_id_counter customer_id_counter order_id_counter].
  rewrite Hids. split; [done|]. split.
  { split; [lia|]. eexists. unfold amount_of_draw. reflexivity. }
  split; [done|]. by intros [] ?.
Qed.

(** With no valid parent the first turn of the loop raises, before anything
    is drawn or counted. *)
Lemma new_order_raises m w :
  m < 1 →
  new_order m w = (Raises (ValueError "empty range for randrange()"), w).
Proof.
  intros Hm. unfold new_order. unfold_m. simpl.
  by rewrite randint_raises by lia.
Qed.

Lemma new_payment_raises m w :
  m < 1 →
  new_payment m w = (Raises (ValueError "empty range for randrange()"), w).
Proof.
  intros Hm. unfold new_payment. unfold_m. cbn [mbind M_bind bind].
  by rewrite randint_raises by lia.
Qed.

Lemma collect_raises_first {A} (body : M A) e n w :
  body w = (Raises e, w) → collect (S n) body w = (Raises e, w).
Proof. intros H. cbn [collect]. by rewrite (bind_raises _ _ _ _ _ H). Qed.

End Generators.

(** C2. With a parent watermark of at least 1, [generate_orders] and
    [generate_payments] return, for every [count] (in particular every
    [count >= 0]), exactly [count] rows (none for a negative count), and
    every row references a parent in [1, watermark]. *)
Theorem C2_parent_reference_in_range (count max_parent_id : Z) (w : world) :
  1 ≤ max_parent_id →
  (∃ orders w',
     generate_orders count max_parent_id w = (Returns orders, w')
     ∧ Z.of_nat (length orders) = Z.max 0 count
     ∧ Forall (λ o, 1 ≤ o_customer_id o ≤ max_parent_id) orders)
  ∧ (∃ payments w',
       generate_payments count max_parent_id w = (Returns payments, w')
       ∧ Z.of_nat (length payments) = Z.max 0 count
       ∧ Forall (λ p, 1 ≤ p_order_id p ≤ max_parent_id) payments).
Proof.
  intros Hm. split.
  - destruct (collect_issues _ _ _ _ (new_order_issues _ Hm) (range_len count) w)
      as (l & w' & Hrun & Hlen & _ & HF & _).
    exists l, w'. repeat split; [done | unfold range_len in Hlen; lia | done].
  - destruct (collect_issues _ _ _ _ (new_payment_issues _ Hm)
                (range_len count) w)
      as (l & w' & Hrun & Hlen & _ & HF & _).
    exists l, w'. repeat split; [done | unfold range_len in Hlen; lia |].
    eapply Forall_impl; [exact HF|]. by intros p [? _].
Qed.

Lemma C2_parent_reference_in_range_witness :
  (∃ orders w',
     generate_orders 2 3 (sample_world []) = (Returns orders, w')
     ∧ Z.of_nat (length orders) = Z.max 0 2
     ∧ Forall (λ o, 1 ≤ o_customer_id o ≤ 3) orders)
  ∧ (∃ payments w',
       generate_payments 2 3 (sample_world []) = (Returns payments, w')
       ∧ Z.of_nat (length payments) = Z.max 0 2
       ∧ Forall (λ p, 1 ≤ p_order_id p ≤ 3) payments).
Proof. apply (C2_parent_reference_in_range 2 3 (sample_world [])). lia. Defined.


(** ** Identifier sequences *)

Lemma collect_zero {A} (body : M A) w : collect 0 body w = (Returns [], w).
Proof. done. Qed.

Lemma issued_by_consecutive (c : gen_call) (w : world) :
  consecutive (kind_of c) (issued_by c w).1 w (issued_by c w).2
  ∧ ∀ k, kind_of c ≠ k →
      counter_of k (ids (issued_by c w).2) = counter_of k (ids w).
Proof.
  assert (Hstay : ∀ k, consecutive k [] w w).
  { intros k. split; [|lia]. by rewrite seqZ_nil by lia. }
  assert (Hgo : ∀ A (key : A → Z) P (body : M A) k n,
    issues k key P body →
    ∃ l w', collect n body w = (Returns l, w')
      ∧ consecutive k (key <$> l) w w'
      ∧ ∀ k', k ≠ k' → counter_of k' (ids w') = counter_of k' (ids w)).
  { intros A key P body k n Hbody.
    destruct (collect_issues k key P body Hbody n w)
      as (l & w' & Hrun & _ & Hseq & _ & Hk & Hother).
    exists l, w'. split; [done|]. split; [|by auto].
    split; [|lia]. rewrite Hseq. f_equal. lia. }
  destruct c as [n | n m | n m]; cbn [issued_by kind_of].
  - unfold generate_customers.
    destruct (Hgo _ _ _ _ Customers (range_len n) new_customer_issues)
      as (l & w' & -> & ? & ?). done.
  - unfold generate_orders.
    destruct (Z.le_gt_cases 1 m) as [Hm | Hm].
    + destruct (Hgo _ _ _ _ Orders (range_len n) (new_order_issues m Hm))
        as (l & w' & -> & ? & ?). done.
    + destruct (range_len n) as [|n'].
      * rewrite collect_zero. simpl. auto.
      * rewrite (collect_raises_first _ _ _ _ (new_order_raises m w Hm)).
        simpl. auto.
  - unfold generate_payments.
    destruct (Z.le_gt_cases 1 m) as [Hm | Hm].
    + destruct (Hgo _ _ _ _ Payments (range_len n) (new_payment_issues m Hm))
        as (l & w' & -> & ? & ?). done.
    + destruct (range_len n) as [|n'].
      * rewrite collect_zero. simpl. auto.
      * rewrite (collect_raises_first _ _ _ _ (new_payment_raises m w Hm)).
        simpl. auto.
Qed.

Lemma issued_consecutive (k : entity) (calls : list gen_call) (w : world) :
  consecutive k (issued k calls w).1 w (issued k calls w).2.
Proof.
  revert w. induction calls as [|c rest IH]; intros w; cbn [issued].
  - split; [|simpl; lia]. simpl. by rewrite seqZ_nil by lia.
  - destruct (issued_by_consecutive c w) as [[Hhere Hle] Hother].
    destruct (issued_by c w) as [here w1]. simpl in Hhere, Hle, Hother.
    specialize (IH w1). destruct (issued k rest w1) as [later w2].
    destruct IH as [Hlater Hle2]. simpl in Hlater, Hle2. simpl.
    destruct (decide (kind_of c = k)) as [<- | Hne].
    + split; [|lia]. rewrite Hhere, Hlater.
      set (a := counter_of (kind_of c) (ids w)) in *.
      set (b := counter_of (kind_of c) (ids w1)) in *.
      set (d := counter_of (kind_of c) (ids w2)) in *.
      replace (d - a) with ((b - a) + (d - b)) by lia.
      rewrite seqZ_app by lia. do 2 f_equal. lia.
    + rewrite Hother in Hlater, Hle2 by done. by split.
Qed.

(** C3. In one process (the counters start at 1), whatever generator calls
    are made and whatever they draw, the identifiers issued for a kind are
    exactly [1, 2, ..., h] in that order, where [h] is the kind's high-water
    mark at the end ([0], and no identifier, if none was issued); and a call
    for one kind leaves the counters of the other kinds as they were. *)
Theorem C3_identifier_sequences (draws : nat → Z) (f : faker)
    (script : list fate) (ticks : nat → Z) (calls : list gen_call)
    (k : entity) :
  let run := issued k calls (boot draws f script ticks) in
  run.1 = seqZ 1 (high_water_mark k run.2)
  ∧ 0 ≤ high_water_mark k run.2
  ∧ high_water_mark k (boot draws f script ticks) = 0
  ∧ ∀ (c : gen_call) (w : world), kind_of c ≠ k →
      high_water_mark k (issued_by c w).2 = high_water_mark k w.
Proof.
  intros run. unfold high_water_mark.
  destruct (issued_consecutive k calls (boot draws f script ticks))
    as [Hseq Hle].
  fold run in Hseq, Hle.
  assert (Hboot : counter_of k (ids (boot draws f script ticks)) = 1)
    by by destruct k.
  rewrite Hboot in Hseq, Hle. repeat split.
  - rewrite Hseq. f_equal.
  - lia.
  - lia.
  - intros c w Hne. by rewrite (proj2 (issued_by_consecutive c w) k Hne).
Qed.

(** The identifiers of scenario A: three customers, then two orders. *)
Example scenario_A :
  (issued Customers [GenCustomers 3; GenOrders 2 3] (sample_world [])).1
    = [1; 2; 3]
  ∧ (issued Orders [GenCustomers 3; GenOrders 2 3] (sample_world [])).1
    = [1; 2].
Proof. by vm_compute. Qed.

(** ** Arguments the generators do not check *)

(** C5, as the code has it.  The generators validate nothing themselves: a
    [count] of zero or less makes [range(count)] empty, so every generator
    returns the empty list without error; a parent watermark below 1 makes
    [random.randint] raise [ValueError] in the first turn of the loop, so with
    [count >= 1] the call fails.  In both cases the state is untouched: no
    row, no identifier consumed, nothing drawn. *)
Theorem C5_arguments_unchecked (count max_parent_id : Z) (w : world) :
  (count ≤ 0 →
     generate_customers count w = (Returns [], w)
     ∧ generate_orders count max_parent_id w = (Returns [], w)
     ∧ generate_payments count max_parent_id w = (Returns [], w))
  ∧ (1 ≤ count → max_parent_id < 1 →
       generate_orders count max_parent_id w
         = (Raises (ValueError "empty range for randrange()"), w)
       ∧ generate_payments count max_parent_id w
         = (Raises (ValueError "empty range for randrange()"), w)).
Proof.
  split.
  - intros Hc. unfold generate_customers, generate_orders, generate_payments,
      range_len.
    replace (Z.to_nat count) with O by lia. done.
  - intros Hc Hm. unfold generate_orders, generate_payments, range_len.
    destruct (Z.to_nat count) as [|n] eqn:Hn; [lia|].
    split; apply collect_raises_first;
      [by apply new_order_raises | by apply new_payment_raises].
Qed.

Lemma C5_arguments_unchecked_witness :
  (generate_customers (-1) (sample_world []) = (Returns [], sample_world [])
   ∧ generate_orders (-1) 0 (sample_world []) = (Returns [], sample_world [])
   ∧ generate_payments (-1) 0 (sample_world [])
     = (Returns [], sample_world []))
  ∧ (generate_orders 2 0 (sample_world [])
       = (Raises (ValueError "empty range for randrange()"), sample_world [])
     ∧ generate_payments 2 0 (sample_world [])
       = (Raises (ValueError "empty range for randrange()"), sample_world [])).
Proof.
  split.
  - apply (proj1 (C5_arguments_unchecked (-1) 0 (sample_world []))). lia.
  - apply (proj2 (C5_arguments_unchecked 2 0 (sample_world []))); lia.
Defined.

(** C5 as stated fails: a negative count, and a watermark below 1 with a
    count of zero, are accepted without any error. *)
Lemma C5_counterexample :
  ¬ (∀ (count max_parent_id : Z) (w : world),
       (count < 0 → ∃ e w', generate_customers count w = (Raises e, w'))
       ∧ (max_parent_id < 1 →
            ∃ e w', generate_orders count max_parent_id w = (Raises e, w'))).
Proof.
  intros H. destruct (H (-1) 0 (sample_world [])) as [Hneg _].
  destruct Hneg as (e & w' & Hrun); [lia|]. discriminate Hrun.
Qed.

(** ** Chunks *)

Section Chunks.

Context {A : Type}.
Implicit Types (rows : list A) (c i : Z).

(** Inside the loop a slice is a [take] after a [drop]. *)
Lemma chunk_at_take_drop rows c i :
  0 ≤ i → 0 < c →
  chunk_at rows c i = take (Z.to_nat c) (drop (Z.to_nat i) rows).
Proof.
  intros Hi Hc. unfold chunk_at, py_slice, slice_index.
  destruct (Z.ltb_spec i 0); [lia|].
  destruct (Z.ltb_spec (i + c) 0); [lia|].
  set (len := Z.of_nat (length rows)).
  destruct (Z.le_gt_cases len i) as [Hout | Hin].
  - rewrite (drop_ge rows (Z.to_nat (Z.min i len))) by lia.
    rewrite (drop_ge rows (Z.to_nat i)) by lia. by rewrite !take_nil.
  - rewrite (Z.min_l i len) by lia.
    destruct (Z.le_gt_cases (i + c) len).
    + rewrite Z.min_l by lia. f_equal. lia.
    + rewrite Z.min_r by lia.
      rewrite !take_ge; [done | |]; rewrite length_drop; lia.
Qed.

(** The chunks cut from offset [i] on: they rebuild the rest of the rows,
    there are [ceil((total - i) / c)] of them, none is empty or longer than
    [c], and all but the last are full. *)
Lemma chunks_from rows c :
  0 < c →
  ∀ fuel i,
    0 ≤ i →
    (Z.to_nat (Z.of_nat (length rows) - i) ≤ fuel)%nat →
    let cs := chunk_at rows c <$> range_up fuel i (Z.of_nat (length rows)) c in
    concat cs = drop (Z.to_nat i) rows
    ∧ Z.of_nat (length cs) = Z.max 0 (ceil_div (Z.of_nat (length rows) - i) c)
    ∧ Forall (λ ch, 0 < Z.of_nat (length ch) ≤ c) cs
    ∧ ∀ k ch, cs !! k = Some ch → (S k < length cs)%nat →
        Z.of_nat (length ch) = c.
Proof.
  intros Hc. set (total := Z.of_nat (length rows)).
  induction fuel as [|fuel IH]; intros i Hi Hfuel; cbn [range_up].
  - assert (total ≤ i) by lia. cbn. repeat split.
    + by rewrite drop_ge by lia.
    + unfold ceil_div.
      assert ((total - i + c - 1) / c ≤ 0); [|lia].
      apply Z.lt_succ_r, Z.div_lt_upper_bound; lia.
    + constructor.
    + intros k ch Hk. by rewrite lookup_nil in Hk.
  - destruct (Z.ltb_spec i total) as [Hlt | Hge].
    + specialize (IH (i + c) ltac:(lia) ltac:(lia)).
      cbn zeta in IH. destruct IH as (Hcat & Hlen & Hall & Hfull).
      rewrite fmap_cons. cbn [concat length].
      assert (Hhead : Z.of_nat (length (chunk_at rows c i)) = Z.min c (total - i)).
      { rewrite chunk_at_take_drop by lia.
        rewrite length_take, length_drop. subst total. lia. }
      repeat split.
      * rewrite Hcat, chunk_at_take_drop by lia.
        replace (Z.to_nat (i + c)) with (Z.to_nat i + Z.to_nat c)%nat by lia.
        by rewrite <- drop_drop, take_drop.
      * rewrite Nat2Z.inj_succ, Hlen. unfold ceil_div.
        replace (total - i + c - 1) with ((total - (i + c) + c - 1) + 1 * c)
          by lia.
        rewrite Z.div_add by lia.
        assert (0 ≤ (total - (i + c) + c - 1) / c);
          [apply Z.div_pos; lia | lia].
      * constructor; [lia | done].
      * intros [|k] ch Hk Hmore.
        -- cbn in Hk. injection Hk as <-. rewrite Hhead.
           cbn [length] in Hmore.
           assert (0 < ceil_div (total - (i + c)) c) as Hpos by lia.
           unfold ceil_div in Hpos.
           destruct (Z.le_gt_cases c (total - i)); [lia|].
           assert ((total - (i + c) + c - 1) / c ≤ 0); [|lia].
           apply Z.lt_succ_r, Z.div_lt_upper_bound; lia.
        -- cbn in Hk. cbn [length] in Hmore. apply (Hfull k ch Hk). lia.
    + cbn. repeat split.
      * by rewrite drop_ge by lia.
      * unfold ceil_div.
        assert ((total - i + c - 1) / c ≤ 0); [|lia].
        apply Z.lt_succ_r, Z.div_lt_upper_bound; lia.
      * constructor.
      * intros k ch Hk. by rewrite lookup_nil in Hk.
Qed.

End Chunks.

(** The slices [rows[i:i+C]] at the offsets of [range(0, R, C)], for a
    chunk size of at least 1: there are [ceil(R / C)] of them, none is empty
    or longer than [C], every one but the last has exactly [C] rows, and
    concatenated in order they are the rows. *)
Lemma chunks_spec {A : Type} (rows : list A) (chunk_size : Z) :
  1 ≤ chunk_size →
  let cs := chunks rows chunk_size in
  Z.of_nat (length cs) = ceil_div (Z.of_nat (length rows)) chunk_size
  ∧ Forall (λ ch, 0 < Z.of_nat (length ch) ≤ chunk_size) cs
  ∧ (∀ k ch, cs !! k = Some ch → (S k < length cs)%nat →
       Z.of_nat (length ch) = chunk_size)
  ∧ concat cs = rows.
Proof.
  intros Hc cs. subst cs. unfold chunks, offsets.
  destruct (chunks_from rows chunk_size ltac:(lia)
              (Z.to_nat (Z.of_nat (length rows) - 0)) 0 ltac:(lia) ltac:(lia))
    as (Hcat & Hlen & Hall & Hfull).
  rewrite Z.sub_0_r in *. repeat split; try done.
  rewrite Hlen. unfold ceil_div.
  assert (0 ≤ (Z.of_nat (length rows) + chunk_size - 1) / chunk_size);
    [apply Z.div_pos; lia | lia].
Qed.

(** Scenario B: 50 rows in chunks of 20 are cut as 20, 20 and 10. *)
Example scenario_B_sizes : length <$> chunks (seqZ 1 50) 20 = [20; 20; 10]%nat.
Proof. reflexivity. Qed.

(** ** The loaders *)

Lemma printed_nil w : printed [] w = w.
Proof.
  destruct w. unfold printed, set_stdout. cbn. by rewrite app_nil_r.
Qed.

Lemma served_0 w : served 0 w = w.
Proof. by destruct w. Qed.

Lemma executed_nil w : executed [] w = w.
Proof.
  destruct w as [? ? ? [] ? ? ? ?]. unfold executed, set_conn. cbn.
  by rewrite app_nil_r.
Qed.

(** Steps compose: requests add up, statements and lines are appended. *)
Lemma step_step e1 s1 n1 e2 s2 n2 w :
  printed e2 (executed s2 (served n2 (printed e1 (executed s1 (served n1 w)))))
  = printed (e1 ++ e2) (executed (s1 ++ s2) (served (n1 + n2) w)).
Proof.
  destruct w as [? ? ? [] ? ? ? ?].
  unfold printed, executed, served, set_stdout, set_conn, set_fates. cbn.
  by rewrite !app_assoc, drop_drop.
Qed.

Lemma all_served_S n w :
  all_served (S n) w → hd Done (fates w) = Done ∧ all_served n (served 1 w).
Proof.
  unfold all_served, served. destruct w as [? ? ? ? fs ? ? ?]. cbn.
  destruct fs as [|f fs]; cbn.
  - intros _. split; [done|]. rewrite take_nil. constructor.
  - intros H. apply Forall_cons in H as [-> H]. rewrite drop_0. by split.
Qed.

Section LoaderFacts.

Context {row : Type}.
Variable kind : entity.
Variable insert_into : string.
Variable render : row → string.

Implicit Types (rows : list row) (c i : Z).

Lemma insert_chunk_served rows c i w :
  hd Done (fates w) = Done →
  insert_chunk kind insert_into render c rows i w
  = (Returns tt,
     printed (progress_of kind c (Z.of_nat (length rows)) i)
       (executed [chunk_sql insert_into render (chunk_at rows c i)]
          (served 1 w))).
Proof.
  intros Hf. unfold insert_chunk, cursor_execute, next_fate, progress_of.
  unfold_m. cbn [mbind M_bind bind]. rewrite Hf.
  fold (served 1 w).
  fold (executed [chunk_sql insert_into render (py_slice rows i (i + c))]
          (served 1 w)).
  unfold print_colored, modify, chunk_at.
  destruct ((i + c) `mod` 5000 =? 0); [done|].
  by rewrite printed_nil.
Qed.

Lemma insert_chunk_refused rows c i cause w :
  hd Done (fates w) = Refused cause →
  insert_chunk kind insert_into render c rows i w
  = (Raises (StoreError cause), served 1 w).
Proof.
  intros Hf. unfold insert_chunk, cursor_execute, next_fate.
  unfold_m. cbn [mbind M_bind bind]. by rewrite Hf.
Qed.

(** All chunks served: every statement is pending, in order. *)
Lemma for_each_served rows c (os : list Z) w :
  all_served (length os) w →
  for_each os (insert_chunk kind insert_into render c rows) w
  = (Returns tt,
     printed (progress_at kind rows c os)
       (executed (sqls_at insert_into render rows c os) (served (length os) w))).
Proof.
  revert w. induction os as [|o os IH]; intros w Hs.
  - cbn. by rewrite served_0, executed_nil, printed_nil.
  - apply all_served_S in Hs as [Hhd Htl]. cbn [for_each].
    rewrite (bind_returns _ _ _ _ _ (insert_chunk_served rows c o w Hhd)).
    rewrite IH.
    + rewrite step_step. done.
    + unfold all_served, printed, executed in *. exact Htl.
Qed.

(** The chunk after [os1] is refused: the loop stops there, with the
    statements of [os1] pending and nothing of [os2] attempted. *)
Lemma for_each_refused rows c (os1 os2 : list Z) o cause w :
  all_served (length os1) w →
  fates w !! length os1 = Some (Refused cause) →
  for_each (os1 ++ o :: os2) (insert_chunk kind insert_into render c rows) w
  = (Raises (StoreError cause),
     printed (progress_at kind rows c os1)
       (executed (sqls_at insert_into render rows c os1) (served (S (length os1)) w))).
Proof.
  revert w. induction os1 as [|o1 os1 IH]; intros w Hs Hf.
  - cbn [app for_each length].
    assert (Hhd : hd Done (fates w) = Refused cause).
    { destruct (fates w); cbn in *; congruence. }
    rewrite (bind_raises _ _ _ _ _ (insert_chunk_refused rows c o cause w Hhd)).
    by rewrite executed_nil, printed_nil.
  - apply all_served_S in Hs as [Hhd Htl]. cbn [app for_each length].
    rewrite (bind_returns _ _ _ _ _ (insert_chunk_served rows c o1 w Hhd)).
    rewrite IH.
    + rewrite step_step. done.
    + exact Htl.
    + cbn. rewrite lookup_drop. exact Hf.
Qed.

Lemma py_range_up total c w :
  0 < c → py_range 0 total c w = (Returns (offsets total c), w).
Proof.
  intros Hc. unfold py_range, offsets.
  destruct (Z.eqb_spec c 0); [lia|].
  by destruct (Z.ltb_spec 0 c); [|lia].
Qed.

Lemma conn_commit_served w :
  hd Done (fates w) = Done →
  ∃ w', conn_commit w = (Returns tt, w')
    ∧ committed (conn w') = committed (conn w) ++ pending (conn w)
    ∧ pending (conn w') = []
    ∧ commits (conn w') = S (commits (conn w))
    ∧ rollbacks (conn w') = rollbacks (conn w)
    ∧ closes (conn w') = closes (conn w)
    ∧ open_cursors (conn w') = open_cursors (conn w)
    ∧ fates w' = drop 1 (fates w)
    ∧ stdout w' = stdout w ∧ ids w' = ids w ∧ rnd w' = rnd w
    ∧ clock w' = clock w ∧ batch_number w' = batch_number w
    ∧ fake w' = fake w.
Proof.
  intros Hf. unfold conn_commit, next_fate. unfold_m.
  cbn [mbind M_bind bind]. rewrite Hf. eexists. split; [reflexivity|].
  by cbn.
Qed.

Lemma all_served_next n w :
  all_served (S n) w → hd Done (drop n (fates w)) = Done.
Proof.
  unfold all_served. generalize (fates w). clear w.
  induction n as [|n IH]; intros [|f fs] H; cbn in *; try done.
  - by apply Forall_cons in H as [-> _].
  - apply Forall_cons in H as [_ H]. by apply IH.
Qed.

Lemma all_served_le n m w : (n ≤ m)%nat → all_served m w → all_served n w.
Proof.
  unfold all_served. intros Hnm H.
  replace n with (n `min` m)%nat by lia.
  rewrite <- take_take. by apply Forall_take.
Qed.

(** A load whose requests are all served: the call returns, the statements
    of all chunks are committed in order by one commit, and one progress
    line is printed for each offset that passes the test. *)
Lemma batch_insert_returns rows c w :
  0 < c →
  all_served (S (length (offsets (Z.of_nat (length rows)) c))) w →
  let os := offsets (Z.of_nat (length rows)) c in
  ∃ w', batch_insert kind insert_into render c rows w = (Returns tt, w')
    ∧ committed (conn w')
      = committed (conn w) ++ pending (conn w)
        ++ sqls_at insert_into render rows c os
    ∧ pending (conn w') = []
    ∧ commits (conn w') = S (commits (conn w))
    ∧ rollbacks (conn w') = rollbacks (conn w)
    ∧ closes (conn w') = closes (conn w)
    ∧ open_cursors (conn w') = open_cursors (conn w)
    ∧ fates w' = drop (S (length os)) (fates w)
    ∧ stdout w' = stdout w ++ progress_at kind rows c os
    ∧ ids w' = ids w.
Proof.
  intros Hc Hs os. unfold batch_insert, conn_cursor, try_finally, try_except.
  unfold_m. cbn [mbind M_bind bind].
  rewrite py_range_up by done. fold os.
  rewrite for_each_served
    by (eapply all_served_le; [|exact Hs]; unfold os; lia).
  match goal with
  | |- context [conn_commit ?x] =>
      destruct (conn_commit_served x) as (w1 & -> & H1 & H2 & H3 & H4 & H5
        & H6 & H7 & H8 & H9 & _)
  end.
  { cbn. by apply all_served_next. }
  unfold cursor_close, modify. eexists. split; [reflexivity|].
  cbn in *. rewrite H1, H2, H3, H4, H5, H6, H7, H8, H9.
  rewrite drop_drop.
  repeat split; try done; try lia.
  f_equal. lia.
Qed.

(** The request at position [k] of the call (counting from 0) is the
    statement of a chunk, and the store refuses it. *)
Lemma batch_insert_refused rows c (k : nat) o cause w :
  0 < c →
  offsets (Z.of_nat (length rows)) c !! k = Some o →
  all_served k w →
  fates w !! k = Some (Refused cause) →
  let os1 := take k (offsets (Z.of_nat (length rows)) c) in
  ∃ w', batch_insert kind insert_into render c rows w
        = (Raises (StoreError cause), w')
    ∧ committed (conn w') = committed (conn w)
    ∧ pending (conn w') = []
    ∧ commits (conn w') = commits (conn w)
    ∧ rollbacks (conn w') = S (rollbacks (conn w))
    ∧ closes (conn w') = closes (conn w)
    ∧ open_cursors (conn w') = open_cursors (conn w)
    ∧ fates w' = drop (S k) (fates w)
    ∧ stdout w'
      = stdout w ++ progress_at kind rows c os1 ++ [InsertError kind cause]
    ∧ ids w' = ids w.
Proof.
  intros Hc Ho Hs Hf os1.
  unfold batch_insert, conn_cursor, try_finally, try_except.
  unfold_m. cbn [mbind M_bind bind].
  rewrite py_range_up by done.
  rewrite <- (take_drop_middle _ _ _ Ho). fold os1.
  assert (Hlen : length os1 = k).
  { unfold os1. rewrite length_take. apply lookup_lt_Some in Ho. lia. }
  rewrite for_each_refused with (cause := cause);
    [| rewrite Hlen; exact Hs | rewrite Hlen; exact Hf].
  unfold except_Exception, conn_rollback, print_colored, cursor_close, modify.
  cbn. eexists. split; [reflexivity|]. cbn. rewrite Hlen, <- app_assoc.
  repeat split; try done; lia.
Qed.

End LoaderFacts.

(** The offsets are the multiples of the chunk size below the total. *)
Lemma range_up_elem fuel j total c i :
  0 < c → i ∈ range_up fuel j total c → j ≤ i < total ∧ (i - j) `mod` c = 0.
Proof.
  intros Hc. revert j. induction fuel as [|fuel IH]; intros j; cbn [range_up].
  - by rewrite elem_of_nil.
  - destruct (Z.ltb_spec j total) as [Hlt|]; [|by rewrite elem_of_nil].
    rewrite elem_of_cons. intros [-> | Hin].
    + split; [lia|]. by rewrite Z.sub_diag.
    + apply IH in Hin as [? Hmod]. split; [lia|].
      replace (i - j) with ((i - (j + c)) + 1 * c) by lia.
      by rewrite Z.mod_add by lia.
Qed.

Lemma range_up_multiple fuel j total c (q : nat) :
  0 < c → (Z.to_nat (total - j) ≤ fuel)%nat → j + Z.of_nat q * c < total →
  j + Z.of_nat q * c ∈ range_up fuel j total c.
Proof.
  intros Hc. revert fuel j. induction q as [|q IH]; intros fuel j Hfuel Hlt.
  - destruct fuel as [|fuel]; [lia|]. cbn [range_up].
    destruct (Z.ltb_spec j total); [|lia].
    replace (j + Z.of_nat 0 * c) with j by lia. apply list_elem_of_here.
  - assert (j < total) by nia.
    destruct fuel as [|fuel]; [lia|]. cbn [range_up].
    destruct (Z.ltb_spec j total); [|lia].
    apply list_elem_of_further.
    replace (j + Z.of_nat (S q) * c) with ((j + c) + Z.of_nat q * c)
      by (rewrite Nat2Z.inj_succ; ring).
    apply IH; [lia|]. rewrite Nat2Z.inj_succ in Hlt. lia.
Qed.

(** ** Chunks on the wire *)

Lemma all_served_nil n w : fates w = [] → all_served n w.
Proof. intros H. unfold all_served. rewrite H, take_nil. constructor. Qed.

(** The progress lines of a loop, read off the offsets that pass the test
    of the loader. *)
Lemma progress_at_filter {row} (kind : entity) (rows : list row) (c : Z)
    (os : list Z) :
  progress_at kind rows c os
  = (λ i, Progress kind (Z.min (i + c) (Z.of_nat (length rows)))
            (Z.of_nat (length rows)))
    <$> filter (λ i, (i + c) `mod` 5000 = 0) os.
Proof.
  unfold progress_at. induction os as [|o os IH]; [done|].
  cbn [mbind list_bind]. rewrite filter_cons, IH. unfold progress_of.
  destruct (Z.eqb_spec ((o + c) `mod` 5000) 0) as [E|E].
  - by rewrite decide_True by done.
  - by rewrite decide_False by done.
Qed.

(** With a chunk size that divides 5000, the lines printed from offset [j]
    on are one for each multiple of 5000 that the loop still reaches:
    those from the first one not below [j + c] up to the last one below
    [total + c]. *)
Lemma progress_divisor (kind : entity) (total c : Z) :
  0 < c → (c | 5000) →
  ∀ fuel j,
    0 ≤ j → (c | j) → (Z.to_nat (total - j) ≤ fuel)%nat →
    range_up fuel j total c ≫= progress_of kind c total
    = (λ m, Progress kind (Z.min (5000 * m) total) total)
      <$> seqZ ((j + c + 4999) / 5000)
               ((total + c - 1) / 5000 - (j + c + 4999) / 5000 + 1).
Proof.
  intros Hc [d Hd].
  assert (Hd0 : 0 < d) by nia.
  assert (Hc5 : c ≤ 5000) by nia.
  assert (Hempty : ∀ j, total ≤ j →
    (total + c - 1) / 5000 - (j + c + 4999) / 5000 + 1 ≤ 0).
  { intros j Hj.
    assert ((total + c - 1) / 5000 < (j + c + 4999) / 5000); [|lia].
    apply Z.div_lt_upper_bound; [lia|].
    pose proof (Z.mul_div_le (j + c + 4999) 5000 ltac:(lia)).
    pose proof (Z.mod_pos_bound (j + c + 4999) 5000 ltac:(lia)).
    pose proof (Z.div_mod (j + c + 4999) 5000 ltac:(lia)). lia. }
  induction fuel as [|fuel IH]; intros j Hj [q Hq] Hfuel; cbn [range_up].
  - rewrite seqZ_nil by (apply Hempty; lia). done.
  - destruct (Z.ltb_spec j total) as [Hlt|Hge];
      [|rewrite seqZ_nil by (apply Hempty; lia); done].
    cbn [mbind list_bind].
    rewrite (IH (j + c)); [|lia|exists (q + 1); lia|lia].
    unfold progress_of.
    pose proof (Z.div_mod (j + c) 5000 ltac:(lia)) as Hdm.
    pose proof (Z.mod_pos_bound (j + c) 5000 ltac:(lia)) as Hb.
    set (a := (j + c) / 5000) in *. set (b := (j + c) `mod` 5000) in *.
    destruct (Z.eqb_spec b 0) as [E|E].
    + (* a line: [j + c = 5000 * a] *)
      assert (Hlo : (j + c + 4999) / 5000 = a).
      { symmetry. apply (Z.div_unique _ _ _ 4999); lia. }
      assert (Hlo' : (j + c + c + 4999) / 5000 = a + 1).
      { symmetry. apply (Z.div_unique _ _ _ (c - 1)); lia. }
      assert (Hhi : a ≤ (total + c - 1) / 5000).
      { apply Z.div_le_lower_bound; lia. }
      rewrite Hlo, Hlo'.
      rewrite (seqZ_cons a) by lia. rewrite fmap_cons. cbn [app].
      f_equal.
      * f_equal. lia.
      * f_equal. f_equal; lia.
    + (* no line: [b] is a multiple of [c] strictly inside (0, 5000) *)
      assert (Hbc : (c | b)).
      { exists (q + 1 - d * a). unfold b. rewrite Z.mod_eq by lia. fold a. nia. }
      destruct Hbc as [k Hk].
      assert (0 < k) by nia. assert (k < d) by nia.
      assert (Hlo : (j + c + 4999) / 5000 = a + 1).
      { symmetry. apply (Z.div_unique _ _ _ (b - 1)); lia. }
      assert (Hlo' : (j + c + c + 4999) / 5000 = a + 1).
      { symmetry. apply (Z.div_unique _ _ _ (b + c - 1)); nia. }
      rewrite Hlo, Hlo'. done.
Qed.

(** [range(j, total, c)] for a positive step, written out. *)
Lemma range_up_seqZ (total c : Z) :
  0 < c →
  ∀ fuel j,
    (Z.to_nat (total - j) ≤ fuel)%nat →
    range_up fuel j total c
    = (λ q, j + q * c) <$> seqZ 0 (ceil_div (total - j) c).
Proof.
  intros Hc. unfold ceil_div.
  induction fuel as [|fuel IH]; intros j Hfuel; cbn [range_up].
  - rewrite seqZ_nil; [done|].
    assert ((total - j + c - 1) / c < 1); [|lia].
    apply Z.div_lt_upper_bound; lia.
  - destruct (Z.ltb_spec j total) as [Hlt|Hge].
    + assert (HN : (total - j + c - 1) / c
                   = (total - (j + c) + c - 1) / c + 1).
      { replace (total - j + c - 1) with (total - (j + c) + c - 1 + 1 * c)
          by lia.
        by rewrite Z.div_add by lia. }
      assert (0 ≤ (total - (j + c) + c - 1) / c) by (apply Z.div_pos; lia).
      rewrite seqZ_cons by lia. rewrite fmap_cons. f_equal; [lia|].
      rewrite IH by lia. rewrite HN.
      replace (Z.pred ((total - (j + c) + c - 1) / c + 1))
        with ((total - (j + c) + c - 1) / c) by lia.
      change (Z.succ 0) with (1 + 0). rewrite <- fmap_add_seqZ.
      rewrite <- list_fmap_compose. apply list_fmap_ext.
      intros _ q _. cbn. lia.
    + rewrite seqZ_nil; [done|].
      assert ((total - j + c - 1) / c < 1); [|lia].
      apply Z.div_lt_upper_bound; lia.
Qed.

Lemma offsets_seqZ (total c : Z) :
  0 < c →
  offsets total c = (λ q, q * c) <$> seqZ 0 (ceil_div total c).
Proof.
  intros Hc. unfold offsets. rewrite range_up_seqZ by (done || lia).
  rewrite Z.sub_0_r. apply list_fmap_ext. intros _ q _. lia.
Qed.

Lemma length_offsets (total c : Z) :
  0 < c → 0 ≤ total →
  length (offsets total c) = Z.to_nat (ceil_div total c).
Proof.
  intros Hc Ht. rewrite offsets_seqZ by done.
  rewrite length_fmap, length_seqZ. done.
Qed.

(** C4. A load with a chunk size of at least 1 whose requests are all
    served sends one statement per chunk: the rows are cut into exactly
    [ceil(R / C)] contiguous chunks, none longer than [C] (nor empty), every
    one but the last of exactly [C] rows, their concatenation in order is
    the rows, and the statements committed are the [VALUES] lists of these
    chunks, in that order. *)
Theorem C4_chunking {row : Type} (kind : entity)
    (insert_into : string) (render : row → string) (rows : list row)
    (chunk_size : Z) (w : world) :
  1 ≤ chunk_size →
  all_served
    (S (Z.to_nat (ceil_div (Z.of_nat (length rows)) chunk_size))) w →
  ∃ (cs : list (list row)) w',
    Z.of_nat (length cs) = ceil_div (Z.of_nat (length rows)) chunk_size
    ∧ Forall (λ ch, 0 < Z.of_nat (length ch) ≤ chunk_size) cs
    ∧ (∀ k ch, cs !! k = Some ch → (S k < length cs)%nat →
         Z.of_nat (length ch) = chunk_size)
    ∧ concat cs = rows
    ∧ batch_insert kind insert_into render chunk_size rows w
      = (Returns tt, w')
    ∧ committed (conn w')
      = committed (conn w) ++ pending (conn w)
        ++ ((λ ch, insert_into +:+ String.concat ", " (render <$> ch))
            <$> cs)
    ∧ pending (conn w') = []
    ∧ fates w' = drop (S (length cs)) (fates w).
Proof.
  intros Hc Hs.
  rewrite <- (length_offsets (Z.of_nat (length rows)) chunk_size) in Hs
    by lia.
  destruct (batch_insert_returns kind insert_into render rows chunk_size w
              ltac:(lia) Hs)
    as (w' & Hrun & Hcom & Hpen & _ & _ & _ & _ & Hf & _).
  destruct (chunks_spec rows chunk_size Hc) as (Hlen & Hall & Hfull & Hcat).
  exists (chunks rows chunk_size), w'.
  repeat split; try done.
  - rewrite Hcom. unfold sqls_at, chunks.
    by rewrite <- list_fmap_compose.
  - rewrite Hf. unfold chunks. by rewrite length_fmap.
Qed.

Lemma C4_chunking_witness :
  ∃ (cs : list (list customer)) w',
    Z.of_nat (length cs)
    = ceil_div (Z.of_nat (length (sample_customers 50))) 20
    ∧ Forall (λ ch, 0 < Z.of_nat (length ch) ≤ 20) cs
    ∧ (∀ k ch, cs !! k = Some ch → (S k < length cs)%nat →
         Z.of_nat (length ch) = 20)
    ∧ concat cs = sample_customers 50
    ∧ batch_insert Customers "INSERT " render_customer 20
        (sample_customers 50) (sample_world [])
      = (Returns tt, w')
    ∧ committed (conn w')
      = committed (conn (sample_world []))
        ++ pending (conn (sample_world []))
        ++ ((λ ch, "INSERT " +:+ String.concat ", " (render_customer <$> ch))
            <$> cs)
    ∧ pending (conn w') = []
    ∧ fates w' = drop (S (length cs)) (fates (sample_world [])).
Proof.
  apply (C4_chunking Customers "INSERT " render_customer
           (sample_customers 50) 20 (sample_world [])).
  - lia.
  - apply all_served_nil. reflexivity.
Defined.

(** ** A chunk fails *)

(** C1, as the code has it.  The loader commits once, after the loop, and
    its [except] clause rolls the open transaction back.  So when the store
    refuses the chunk at position [k] (counting from 0; the chunks before it
    were served), the call raises that very error without retrying, nothing
    of the call is persisted (the chunks executed before the failure are
    rolled back with it), no later request is issued (the remaining chunks
    are never attempted and nothing is committed), and the error line is
    printed. *)
Theorem C1_failed_chunk_rolls_back_the_call {row : Type} (kind : entity)
    (insert_into : string) (render : row → string) (rows : list row)
    (chunk_size : Z) (k : nat) (cause : string) (w : world) :
  1 ≤ chunk_size →
  (k < length (chunks rows chunk_size))%nat →
  all_served k w →
  fates w !! k = Some (Refused cause) →
  ∃ w',
    batch_insert kind insert_into render chunk_size rows w
      = (Raises (StoreError cause), w')
    ∧ committed (conn w') = committed (conn w)
    ∧ pending (conn w') = []
    ∧ commits (conn w') = commits (conn w)
    ∧ rollbacks (conn w') = S (rollbacks (conn w))
    ∧ fates w' = drop (S k) (fates w)
    ∧ last (stdout w') = Some (InsertError kind cause).
Proof.
  intros Hc Hk Hs Hf. unfold chunks in Hk. rewrite length_fmap in Hk.
  destruct (lookup_lt_is_Some_2 _ _ Hk) as [o Ho].
  destruct (batch_insert_refused kind insert_into render rows chunk_size k o
              cause w ltac:(lia) Ho Hs Hf)
    as (w' & Hrun & H1 & H2 & H3 & H4 & _ & _ & H7 & H8 & _).
  exists w'. repeat split; try done.
  rewrite H8, !app_assoc. apply last_snoc.
Qed.

Lemma C1_failed_chunk_rolls_back_the_call_witness :
  ∃ w',
    batch_insert Customers "INSERT " render_customer 20 (sample_customers 50)
      (sample_world [Done; Refused "rejected"])
      = (Raises (StoreError "rejected"), w')
    ∧ committed (conn w') = committed (conn (sample_world [Done; Refused "rejected"]))
    ∧ pending (conn w') = []
    ∧ commits (conn w') = commits (conn (sample_world [Done; Refused "rejected"]))
    ∧ rollbacks (conn w')
      = S (rollbacks (conn (sample_world [Done; Refused "rejected"])))
    ∧ fates w' = drop 2 (fates (sample_world [Done; Refused "rejected"]))
    ∧ last (stdout w') = Some (InsertError Customers "rejected").
Proof.
  apply (C1_failed_chunk_rolls_back_the_call Customers "INSERT "
           render_customer (sample_customers 50) 20 1 "rejected"
           (sample_world [Done; Refused "rejected"])).
  - lia.
  - vm_compute. lia.
  - unfold all_served. cbn. by repeat constructor.
  - reflexivity.
Defined.

(** C1 as stated fails on scenario B: 50 rows in chunks of 20, the store
    rejects the second chunk, and the first chunk is not persisted: the
    committed store holds nothing after the call. *)
Lemma C1_counterexample :
  let cfg := sample_config 50 20 in
  let w := sample_world [Done; Refused "rejected"] in
  let run := batch_insert_customers cfg (sample_customers 50) w in
  run.1 = Raises (StoreError "rejected")
  ∧ committed (conn run.2) = []
  ∧ pending (conn run.2) = []
  ∧ rollbacks (conn run.2) = 1%nat
  ∧ ¬ (∀ chunk, chunks (sample_customers 50) 20 !! 0%nat = Some chunk →
         chunk_sql "INSERT INTO customers (ID, FIRST_NAME, LAST_NAME) VALUES "
           render_customer chunk ∈ committed (conn run.2)).
Proof.
  cbn zeta.
  assert (Hc : committed (conn (batch_insert_customers (sample_config 50 20)
                 (sample_customers 50)
                 (sample_world [Done; Refused "rejected"])).2) = [])
    by (vm_compute; reflexivity).
  repeat split; try (vm_compute; reflexivity).
  intros H.
  destruct (chunks (sample_customers 50) 20 !! 0%nat) as [ch|] eqn:E;
    [|vm_compute in E; discriminate].
  specialize (H ch eq_refl). rewrite Hc in H. by apply elem_of_nil in H.
Qed.

(** ** An empty load *)

(** C10, as the code has it.  A load of no rows, with a chunk size other
    than zero (a zero step is rejected by [range]) and a store that serves
    the commit: the call
    returns; its only request to the store is the commit, so no chunk is
    submitted; nothing is printed; exactly one commit is made and nothing is
    rolled back. *)
Theorem C10_empty_load {row : Type} (kind : entity) (insert_into : string)
    (render : row → string) (chunk_size : Z) (w : world) :
  chunk_size ≠ 0 →
  hd Done (fates w) = Done →
  ∃ w',
    batch_insert kind insert_into render chunk_size [] w = (Returns tt, w')
    ∧ fates w' = drop 1 (fates w)
    ∧ committed (conn w') = committed (conn w) ++ pending (conn w)
    ∧ pending (conn w') = []
    ∧ commits (conn w') = S (commits (conn w))
    ∧ rollbacks (conn w') = rollbacks (conn w)
    ∧ stdout w' = stdout w.
Proof.
  intros Hc Hf. unfold batch_insert, conn_cursor, try_finally, try_except.
  unfold_m. cbn [mbind M_bind bind length Z.of_nat].
  assert (Hrange : ∀ v, py_range 0 0 chunk_size v = (Returns [], v)).
  { intros v. unfold py_range.
    destruct (Z.eqb_spec chunk_size 0); [done|].
    by destruct (0 <? chunk_size). }
  rewrite Hrange. cbn [for_each ret].
  match goal with
  | |- context [conn_commit ?x] =>
      destruct (conn_commit_served x) as (w1 & -> & H1 & H2 & H3 & H4 & H5
        & H6 & H7 & H8 & _)
  end.
  { exact Hf. }
  unfold cursor_close, modify. eexists. split; [reflexivity|].
  cbn in *. by rewrite H1, H2, H3, H4, H7, H8.
Qed.

Lemma C10_empty_load_witness :
  ∃ w',
    batch_insert Customers "INSERT " render_customer 1000 [] (sample_world [])
      = (Returns tt, w')
    ∧ fates w' = drop 1 (fates (sample_world []))
    ∧ committed (conn w')
      = committed (conn (sample_world [])) ++ pending (conn (sample_world []))
    ∧ pending (conn w') = []
    ∧ commits (conn w') = S (commits (conn (sample_world [])))
    ∧ rollbacks (conn w') = rollbacks (conn (sample_world []))
    ∧ stdout w' = stdout (sample_world []).
Proof.
  apply (C10_empty_load Customers "INSERT " render_customer 1000
           (sample_world [])); [lia | reflexivity].
Defined.

(** C10 as stated fails.  With [CHUNK_SIZE=0] the load of no rows raises
    the [ValueError] of [range], rolls back and commits nothing; and a load
    of no rows whose commit the store refuses fails with the store's
    error. *)
Lemma C10_counterexample :
  let zero :=
    batch_insert_customers (sample_config 10 0) [] (sample_world []) in
  let refused :=
    batch_insert_customers (sample_config 10 1000) []
      (sample_world [Refused "commit"]) in
  zero.1 = Raises (ValueError "range() arg 3 must not be zero")
  ∧ commits (conn zero.2) = 0%nat
  ∧ rollbacks (conn zero.2) = 1%nat
  ∧ refused.1 = Raises (StoreError "commit")
  ∧ commits (conn refused.2) = 0%nat.
Proof. vm_compute. done. Qed.

(** ** Progress lines *)




(** ** The session at shutdown *)

(** C6 fails on a refused schema check.  [run_generator] opens the session
    and checks the schema before its [try] statement, so when the first table
    statement is refused the error leaves the function past its [finally]
    clause: the call ends with the store's error, [conn.close()] has not
    been called, and no closing line is printed. *)
Theorem C6_schema_check_failure_leaves_session_open
    (cfg : config) (fuel : nat) (w : world) (cause : string)
    (rest : list fate) :
  fates w = Done :: Refused cause :: rest →
  ∃ w',
    run_generator cfg fuel w = Some (Raises (StoreError cause), w')
    ∧ closes (conn w') = closes (conn w)
    ∧ stdout w' = stdout w ++ [Banner; Connected; TablesError cause]
    ∧ fates w' = rest.
Proof.
  intros Hf. destruct w as [i r f c fs out cl bn]. cbn in Hf. subst fs.
  eexists. split; [reflexivity|]. cbn.
  rewrite <- !app_assoc. done.
Qed.

Lemma C6_schema_check_failure_leaves_session_open_witness :
  ∃ w',
    run_generator default_config 1 (sample_world [Done; Refused "ddl"])
      = Some (Raises (StoreError "ddl"), w')
    ∧ closes (conn w') = closes (conn (sample_world [Done; Refused "ddl"]))
    ∧ stdout w'
      = stdout (sample_world [Done; Refused "ddl"])
        ++ [Banner; Connected; TablesError "ddl"]
    ∧ fates w' = [].
Proof.
  apply (C6_schema_check_failure_leaves_session_open default_config 1
           (sample_world [Done; Refused "ddl"]) "ddl" []).
  reflexivity.
Defined.

(** ** Timestamps read back *)

(** A case for every value of a bounded variable. *)
Tactic Notation "below" integer(n) :=
  match goal with
  | H : _ ≤ ?x < _ |- _ =>
      let m := fresh "m" in
      let E := fresh "E" in
      assert (E : x = Z.of_nat (Z.to_nat x)) by lia;
      set (m := Z.to_nat x) in E; clearbody m; subst x;
      do n (destruct m as [|m];
            [first [reflexivity | eexists; reflexivity | lia]|]);
      lia
  end.

Lemma string_app_cons (c : ascii) (s t : string) :
  String c s +:+ t = String c (s +:+ t).
Proof. reflexivity. Qed.

Lemma string_app_empty_l (t : string) : "" +:+ t = t.
Proof. reflexivity. Qed.

Lemma string_app_empty_r (s : string) : s +:+ "" = s.
Proof. induction s as [|c s IH]; [done|]. by rewrite string_app_cons, IH. Qed.

Lemma digit_is_digit d : 0 ≤ d < 10 → is_digit (digit d) = true.
Proof. intros H. below 10. Qed.

Lemma code_digit d : 0 ≤ d < 10 → code (digit d) - 48 = d.
Proof. intros H. below 10. Qed.

Lemma zpad_4 n :
  zpad 4 n
  = String (digit ((n / 10 / 10 / 10) `mod` 10))
      (String (digit ((n / 10 / 10) `mod` 10))
         (String (digit ((n / 10) `mod` 10))
            (String (digit (n `mod` 10)) ""))).
Proof. reflexivity. Qed.

Lemma re_d1_digit d rest :
  0 ≤ d < 10 →
  re_d1 (String (digit d) rest) = [(String (digit d) "", rest)].
Proof. intros H. unfold re_d1, re_class. by rewrite digit_is_digit. Qed.

Lemma re_Y_zpad n rest : re_Y (zpad 4 n +:+ rest) = [(zpad 4 n, rest)].
Proof.
  rewrite zpad_4, !string_app_cons, string_app_empty_l. unfold re_Y, re_seq.
  pose proof (Z.mod_pos_bound n 10 ltac:(lia)).
  pose proof (Z.mod_pos_bound (n / 10) 10 ltac:(lia)).
  pose proof (Z.mod_pos_bound (n / 10 / 10) 10 ltac:(lia)).
  pose proof (Z.mod_pos_bound (n / 10 / 10 / 10) 10 ltac:(lia)).
  repeat (rewrite re_d1_digit by done; cbn [mbind list_bind app]).
  reflexivity.
Qed.

Lemma py_int_zpad_4 n : 0 ≤ n ≤ 9999 → py_int (zpad 4 n) = n.
Proof.
  intros Hn. rewrite zpad_4. unfold py_int.
  pose proof (Z.mod_pos_bound n 10 ltac:(lia)).
  pose proof (Z.mod_pos_bound (n / 10) 10 ltac:(lia)).
  pose proof (Z.mod_pos_bound (n / 10 / 10) 10 ltac:(lia)).
  pose proof (Z.mod_pos_bound (n / 10 / 10 / 10) 10 ltac:(lia)).
  cbn [lstrip].
  assert (Hsp : ∀ d, 0 ≤ d < 10 → is_space (digit d) = false).
  { intros d H'. clear - H'. rename H' into H. below 10. }
  rewrite Hsp by done. cbn [int_digits].
  rewrite !code_digit by done.
  Z.to_euclidean_division_equations. lia.
Qed.

Lemma py_int_zpad_2 n : 0 ≤ n < 60 → py_int (zpad 2 n) = n.
Proof. intros H. below 60. Qed.

Lemma re_m_zpad n rest :
  1 ≤ n < 13 → ∃ tl, re_m (zpad 2 n +:+ rest) = (zpad 2 n, rest) :: tl.
Proof. intros H. below 13. Qed.

Lemma re_d_zpad n rest :
  1 ≤ n < 32 → ∃ tl, re_d (zpad 2 n +:+ rest) = (zpad 2 n, rest) :: tl.
Proof. intros H. below 32. Qed.

Lemma re_H_zpad n rest :
  0 ≤ n < 24 → ∃ tl, re_H (zpad 2 n +:+ rest) = (zpad 2 n, rest) :: tl.
Proof. intros H. below 24. Qed.

Lemma re_M_zpad n rest :
  0 ≤ n < 60 → ∃ tl, re_M (zpad 2 n +:+ rest) = (zpad 2 n, rest) :: tl.
Proof. intros H. below 60. Qed.

Lemma re_S_zpad n rest :
  0 ≤ n < 60 → ∃ tl, re_S (zpad 2 n +:+ rest) = (zpad 2 n, rest) :: tl.
Proof. intros H. below 60. Qed.

Lemma re_blank_zpad n rest :
  0 ≤ n < 24 →
  re_plus is_space (" " +:+ zpad 2 n +:+ rest) = [(" ", zpad 2 n +:+ rest)].
Proof. intros H. below 24. Qed.

Lemma days_in_month_le y m : days_in_month y m ≤ 31.
Proof. unfold days_in_month. repeat case_match; lia. Qed.

Lemma head_bind {A B} (l : list A) (k : A → list B) x tl y :
  l = x :: tl → head (k x) = Some y → head (l ≫= k) = Some y.
Proof.
  intros -> Hk. cbn. destruct (k x) as [|b bs]; [done|].
  by injection Hk as ->.
Qed.

(** One step of [pretty] on a positive integer peels its last digit. *)
Lemma pretty_N_go_digit (y : Z) (s : string) :
  0 < y →
  pretty_N_go (Z.to_N y) s
  = pretty_N_go (Z.to_N (y / 10)) (String (digit (y `mod` 10)) s).
Proof.
  intros Hy. rewrite pretty_N_go_step by lia. unfold digit.
  rewrite Z2N.inj_div, Z2N.inj_mod by lia. done.
Qed.

(** From 1000 on a year has its four digits without padding. *)
Lemma pretty_four_digits y : 1000 ≤ y ≤ 9999 → pretty y = zpad 4 y.
Proof.
  intros Hy. rewrite zpad_4.
  assert (E : pretty y = pretty_N_go (Z.to_N y) "").
  { destruct y as [|p|p]; try lia. reflexivity. }
  rewrite E.
  assert (100 ≤ y / 10 ≤ 999) by (Z.to_euclidean_division_equations; lia).
  assert (10 ≤ y / 10 / 10 ≤ 99) by (Z.to_euclidean_division_equations; lia).
  assert (1 ≤ y / 10 / 10 / 10 ≤ 9)
    by (Z.to_euclidean_division_equations; lia).
  assert (E0 : y / 10 / 10 / 10 / 10 = 0)
    by (Z.to_euclidean_division_equations; lia).
  rewrite !pretty_N_go_digit by lia. rewrite E0. reflexivity.
Qed.

Lemma format_regex_strftime dt :
  check_datetime dt = true →
  1000 ≤ year dt →
  head (format_regex (strftime dt))
  = Some ({| g_Y := zpad 4 (year dt); g_m := zpad 2 (month dt);
             g_d := zpad 2 (day dt); g_H := zpad 2 (hour dt);
             g_M := zpad 2 (minute dt); g_S := zpad 2 (second dt) |}, "").
Proof.
  intros Hv Hy. unfold check_datetime in Hv.
  repeat (apply andb_prop in Hv as [Hv ?]).
  pose proof (days_in_month_le (year dt) (month dt)).
  unfold format_regex, strftime. rewrite pretty_four_digits by lia.
  eapply head_bind; [apply re_Y_zpad|]. cbn [list_bind mbind].
  eapply head_bind; [rewrite string_app_cons, string_app_empty_l; reflexivity|].
  destruct (re_m_zpad (month dt)
    ("-" +:+ zpad 2 (day dt) +:+ " " +:+ zpad 2 (hour dt) +:+ ":"
     +:+ zpad 2 (minute dt) +:+ ":" +:+ zpad 2 (second dt)) ltac:(lia))
    as [? Em].
  eapply head_bind; [exact Em|].
  eapply head_bind; [rewrite string_app_cons, string_app_empty_l; reflexivity|].
  destruct (re_d_zpad (day dt)
    (" " +:+ zpad 2 (hour dt) +:+ ":"
     +:+ zpad 2 (minute dt) +:+ ":" +:+ zpad 2 (second dt)) ltac:(lia))
    as [? Ed].
  eapply head_bind; [exact Ed|].
  eapply head_bind; [apply re_blank_zpad; lia|].
  destruct (re_H_zpad (hour dt)
    (":" +:+ zpad 2 (minute dt) +:+ ":" +:+ zpad 2 (second dt)) ltac:(lia))
    as [? EH].
  eapply head_bind; [exact EH|].
  eapply head_bind; [rewrite string_app_cons, string_app_empty_l; reflexivity|].
  destruct (re_M_zpad (minute dt) (":" +:+ zpad 2 (second dt)) ltac:(lia))
    as [? EM].
  eapply head_bind; [exact EM|].
  eapply head_bind; [rewrite string_app_cons, string_app_empty_l; reflexivity|].
  destruct (re_S_zpad (second dt) "" ltac:(lia)) as [? ES].
  rewrite string_app_empty_r in ES.
  eapply head_bind; [exact ES|].
  reflexivity.
Qed.

Lemma strptime_strftime (dt : datetime) :
  check_datetime dt = true → 1000 ≤ year dt →
  strptime (strftime dt) = Some (whole_seconds dt).
Proof.
  intros Hv Hy. unfold strptime.
  rewrite (format_regex_strftime dt Hv Hy).
  cbn [mbind option_bind g_Y g_m g_d g_H g_M g_S].
  pose proof Hv as Hv'. unfold check_datetime in Hv.
  repeat (apply andb_prop in Hv as [Hv ?]).
  pose proof (days_in_month_le (year dt) (month dt)).
  rewrite py_int_zpad_4 by lia. rewrite !py_int_zpad_2 by lia.
  unfold datetime_new, whole_seconds.
  match goal with
  | |- (if ?b then _ else _) = _ => replace b with true; [done|]
  end.
  symmetry. unfold check_datetime in *.
  cbn [year month day hour minute second microsecond].
  rewrite !andb_true_iff, !Z.leb_le in *. lia.
Qed.




(** ** Floats between bounds *)

Section Rounding.

Local Open Scope Q_scope.

Lemma two_neq_0 : ¬ 2 == 0.
Proof. discriminate. Qed.

Lemma floor_spec (q : Q) :
  inject_Z (Qfloor q) <= q ∧ q < inject_Z (Qfloor q) + 1.
Proof.
  split; [apply Qfloor_le|].
  pose proof (Qlt_floor q) as H. rewrite inject_Z_plus in H. exact H.
Qed.

Lemma inject_Z_succ (z : Z) : inject_Z (z + 1) == inject_Z z + 1.
Proof. rewrite inject_Z_plus. reflexivity. Qed.

Lemma rhe_cases (q : Q) :
  F64.rhe q = Qfloor q ∧ q - inject_Z (Qfloor q) <= 1 # 2
  ∨ F64.rhe q = (Qfloor q + 1)%Z ∧ 1 # 2 <= q - inject_Z (Qfloor q).
Proof.
  unfold F64.rhe. cbv zeta.
  destruct (q - inject_Z (Qfloor q) ?= 1 # 2) eqn:E.
  - apply Qeq_alt in E.
    destruct (Z.even (Qfloor q)); [left | right]; split; try done;
      rewrite E; apply Qle_refl.
  - apply Qlt_alt in E. left. split; [done|]. by apply Qlt_le_weak.
  - apply Qgt_alt in E. right. split; [done|]. by apply Qlt_le_weak.
Qed.

Lemma rhe_near (q : Q) :
  inject_Z (F64.rhe q) - q <= 1 # 2 ∧ q - inject_Z (F64.rhe q) <= 1 # 2.
Proof.
  destruct (floor_spec q) as [Hlo Hhi].
  destruct (rhe_cases q) as [[-> H]|[-> H]];
    rewrite ?inject_Z_succ; split; lra.
Qed.

Lemma rhe_le (q : Q) (B : Z) : q <= inject_Z B → (F64.rhe q ≤ B)%Z.
Proof.
  intros HB. destruct (floor_spec q) as [Hlo Hhi].
  assert (Hf : (Qfloor q ≤ B)%Z).
  { rewrite Zle_Qle. lra. }
  destruct (rhe_cases q) as [[-> H]|[-> H]]; [done|].
  destruct (Z.eq_dec (Qfloor q) B) as [<-|]; [lra | lia].
Qed.

Lemma rhe_ge (q : Q) (A : Z) : inject_Z A <= q → (A ≤ F64.rhe q)%Z.
Proof.
  intros HA. destruct (floor_spec q) as [Hlo Hhi].
  assert (Hf : (A ≤ Qfloor q)%Z).
  { rewrite <- (Qfloor_Z A). by apply Qfloor_resp_le. }
  destruct (rhe_cases q) as [[-> H]|[-> H]]; lia.
Qed.

Lemma pow2_pos (k : Z) : 0 < 2 ^ k.
Proof. by apply Qpower_0_lt. Qed.

Lemma pow2_Z (k : Z) : (0 ≤ k)%Z → inject_Z (2 ^ k) == 2 ^ k.
Proof. intros Hk. by rewrite (Zpower_Qpower 2 k Hk). Qed.

Lemma pow2_succ (k : Z) : 2 ^ (k + 1) == 2 * 2 ^ k.
Proof. rewrite Qpower_plus by apply two_neq_0. rewrite Qpower_1_r. ring. Qed.

Lemma pow2_inv (k : Z) : 2 ^ (- k) * 2 ^ k == 1.
Proof.
  rewrite <- Qpower_plus by apply two_neq_0.
  replace (- k + k)%Z with 0%Z by lia. reflexivity.
Qed.

Lemma ilog2_spec (q : Q) :
  0 < q → 2 ^ F64.ilog2 q <= q ∧ q < 2 ^ (F64.ilog2 q + 1).
Proof.
  intros Hq. destruct q as [n d].
  assert (Hn : (0 < n)%Z).
  { unfold Qlt in Hq. cbn in Hq. lia. }
  unfold F64.ilog2. cbn [Qnum Qden].
  set (a := Z.log2 n). set (b := Z.log2 (Z.pos d)).
  pose proof (Z.log2_nonneg n) as Ha0. fold a in Ha0.
  pose proof (Z.log2_nonneg (Z.pos d)) as Hb0. fold b in Hb0.
  destruct (Z.log2_spec n Hn) as [Ha1 Ha2]. fold a in Ha1, Ha2.
  destruct (Z.log2_spec (Z.pos d) ltac:(lia)) as [Hb1 Hb2].
  fold b in Hb1, Hb2.
  rewrite Zle_Qle, pow2_Z in Ha1, Hb1 by lia.
  rewrite Zlt_Qlt, <- Z.add_1_r, pow2_Z, pow2_succ in Ha2, Hb2 by lia.
  set (q := n # d) in *.
  assert (Hqd : q * inject_Z (Z.pos d) == inject_Z n).
  { unfold q. rewrite (Qmake_Qdiv n d). field. discriminate. }
  pose proof (pow2_pos a) as Hpa. pose proof (pow2_pos b) as Hpb.
  assert (Hup : q < 2 ^ (a - b + 1)).
  { replace (a - b + 1)%Z with ((a + 1) - b)%Z by lia.
    rewrite Qpower_minus by apply two_neq_0.
    apply Qlt_shift_div_l; [done|]. rewrite pow2_succ.
    apply Qle_lt_trans with (q * inject_Z (Z.pos d)); [|lra].
    apply Qmult_le_l; [done | lra]. }
  assert (Hdown : 2 ^ (a - b - 1) < q).
  { replace (a - b - 1)%Z with (a - (b + 1))%Z by lia.
    rewrite Qpower_minus by apply two_neq_0.
    apply Qlt_shift_div_r; [apply pow2_pos|]. rewrite pow2_succ.
    apply Qle_lt_trans with (q * inject_Z (Z.pos d)); [lra|].
    apply Qmult_lt_l; [done | lra]. }
  destruct (Qle_bool (2 ^ (a - b)) q) eqn:E.
  - apply Qle_bool_iff in E. done.
  - assert (¬ 2 ^ (a - b) <= q) as Hn'.
    { intros H. apply Qle_bool_iff in H. congruence. }
    apply Qnot_le_lt in Hn'.
    replace (a - b - 1 + 1)%Z with (a - b)%Z by lia.
    split; [by apply Qlt_le_weak | done].
Qed.

Lemma ilog2_lt (q : Q) (k : Z) : 0 < q → q < 2 ^ k → (F64.ilog2 q < k)%Z.
Proof.
  intros Hq Hk. destruct (ilog2_spec q Hq) as [H1 _].
  apply (Qpower_lt_compat_l_inv 2); [lra | reflexivity].
Qed.

Lemma ilog2_ge (q : Q) (k : Z) : 0 < q → 2 ^ k <= q → (k ≤ F64.ilog2 q)%Z.
Proof.
  intros Hq Hk. destruct (ilog2_spec q Hq) as [_ H2].
  assert (k < F64.ilog2 q + 1)%Z; [|lia].
  apply (Qpower_lt_compat_l_inv 2); [lra | reflexivity].
Qed.

Lemma to_Q_of_pos (q : Q) :
  F64.to_Q (F64.of_pos q)
  == inject_Z (F64.rhe (q * 2 ^ (- expo_of q))) * 2 ^ expo_of q.
Proof.
  unfold F64.of_pos. fold (expo_of q). cbv zeta.
  destruct (Z.eqb_spec (F64.rhe (q * 2 ^ (- expo_of q))) (2 ^ 53)) as [->|];
    [|reflexivity].
  unfold F64.to_Q. cbn [F64.mant F64.expo]. rewrite pow2_succ.
  change (2 ^ 53)%Z with (2 ^ 52 * 2)%Z. rewrite inject_Z_mult.
  change (inject_Z 2) with 2. ring.
Qed.

Lemma of_pos_between (q : Q) (A B : Z) :
  0 < q → q < 2 ^ 53 →
  inject_Z A <= q → q <= inject_Z B →
  inject_Z A <= F64.to_Q (F64.of_pos q)
  ∧ F64.to_Q (F64.of_pos q) <= inject_Z B.
Proof.
  intros Hq Hbig HA HB. rewrite to_Q_of_pos.
  pose proof (ilog2_lt q 53 Hq Hbig) as Hl.
  set (e := expo_of q). assert (He : (e ≤ 0)%Z) by (unfold e, expo_of; lia).
  pose proof (pow2_pos (- e)) as Hp. pose proof (pow2_pos e) as Hp'.
  pose proof (pow2_inv e) as Hinv.
  pose proof (pow2_Z (- e) ltac:(lia)) as HZ.
  split.
  - assert (H : (A * 2 ^ (- e) ≤ F64.rhe (q * 2 ^ (- e)))%Z).
    { apply rhe_ge. rewrite inject_Z_mult, HZ. apply Qmult_le_r; done. }
    rewrite Zle_Qle, inject_Z_mult, HZ in H.
    apply Qmult_le_r with (2 ^ (- e)); [done|].
    rewrite <- Qmult_assoc, (Qmult_comm (2 ^ e)), Hinv. lra.
  - assert (H : (F64.rhe (q * 2 ^ (- e)) ≤ B * 2 ^ (- e))%Z).
    { apply rhe_le. rewrite inject_Z_mult, HZ. apply Qmult_le_r; done. }
    rewrite Zle_Qle, inject_Z_mult, HZ in H.
    apply Qmult_le_r with (2 ^ (- e)); [done|].
    rewrite <- Qmult_assoc, (Qmult_comm (2 ^ e)), Hinv. lra.
Qed.

Lemma of_Q_between (q : Q) (A B : Z) :
  0 <= q → q < 2 ^ 53 →
  inject_Z A <= q → q <= inject_Z B →
  inject_Z A <= F64.to_Q (F64.of_Q q) ∧ F64.to_Q (F64.of_Q q) <= inject_Z B.
Proof.
  intros Hq Hbig HA HB. unfold F64.of_Q.
  destruct q as [n d]. cbn [Qnum].
  destruct n as [|n|n].
  - assert (0 # d == 0) as H0 by reflexivity. rewrite H0 in HA, HB.
    change (F64.to_Q F64.zero) with (0 * 2 ^ (-1074)).
    split; lra.
  - by apply of_pos_between.
  - exfalso. unfold Qle in Hq. cbn in Hq. lia.
Qed.

Lemma unit_float_between (r : Z) :
  0 <= F64.to_Q (unit_float r) ∧ F64.to_Q (unit_float r) <= 1.
Proof.
  unfold unit_float.
  pose proof (Z.mod_pos_bound r (2 ^ 53) ltac:(done)) as [H0 H1].
  set (k := (r `mod` 2 ^ 53)%Z) in *.
  assert (Hq : Qmake k (2 ^ 53) == inject_Z k / inject_Z (2 ^ 53)).
  { apply Qmake_Qdiv. }
  assert (0 <= Qmake k (2 ^ 53) ∧ Qmake k (2 ^ 53) < 1) as [Hlo Hhi].
  { unfold Qle, Qlt. cbn [Qnum Qden]. lia. }
  apply (of_Q_between _ 0 1); [exact Hlo | | exact Hlo |].
  - apply Qlt_trans with 1; [exact Hhi | reflexivity].
  - apply Qlt_le_weak, Hhi.
Qed.

Lemma round_2_cents (x : F64.t) :
  F64.round x 2 = F64.of_Q (inject_Z (cents_of x) / 10 ^ 2).
Proof. reflexivity. Qed.

Lemma uniform_between (r : Z) :
  let x := F64.add (F64.of_Z 10)
             (F64.mul (F64.sub (F64.of_Z 5000) (F64.of_Z 10)) (unit_float r))
  in 10 <= F64.to_Q x ∧ F64.to_Q x <= 5000.
Proof.
  intros x. subst x.
  destruct (unit_float_between r) as [Hu0 Hu1].
  set (u := F64.to_Q (unit_float r)) in *.
  assert (Hw : F64.to_Q (F64.sub (F64.of_Z 5000) (F64.of_Z 10)) == 4990).
  { vm_compute. reflexivity. }
  assert (Ht : F64.to_Q (F64.of_Z 10) == 10).
  { vm_compute. reflexivity. }
  unfold F64.mul. fold u.
  set (p := F64.to_Q (F64.sub (F64.of_Z 5000) (F64.of_Z 10)) * u) in *.
  assert (Hp : 0 <= p ∧ p <= 4990).
  { unfold p. rewrite Hw. split; lra. }
  destruct Hp as [Hp0 Hp1].
  clearbody p.
  destruct (of_Q_between p 0 4990) as [Hm0 Hm1];
    [exact Hp0 | | exact Hp0 | exact Hp1 |].
  { apply Qle_lt_trans with 4990; [exact Hp1 | reflexivity]. }
  unfold F64.add.
  set (m := F64.to_Q (F64.of_Q p)) in *. clearbody m.
  change (inject_Z 0) with 0 in Hm0. change (inject_Z 4990) with 4990 in Hm1.
  apply (of_Q_between _ 10 5000).
  - rewrite Ht. lra.
  - rewrite Ht. apply Qle_lt_trans with 5000; [lra | reflexivity].
  - rewrite Ht. change (inject_Z 10) with 10. lra.
  - rewrite Ht. change (inject_Z 5000) with 5000. lra.
Qed.

Lemma amount_cents (r : Z) :
  ∃ c : Z, (1000 ≤ c ≤ 500000)%Z
    ∧ amount_of_draw r = F64.of_Q (inject_Z c / 10 ^ 2).
Proof.
  unfold amount_of_draw. rewrite round_2_cents.
  eexists. split; [|reflexivity].
  destruct (uniform_between r) as [H0 H1]. unfold cents_of.
  change (10 ^ 2) with 100.
  split.
  - apply rhe_ge. change (inject_Z 1000) with 1000. lra.
  - apply rhe_le. change (inject_Z 500000) with 500000. lra.
Qed.

Lemma cents_between (c : Z) :
  (1000 ≤ c ≤ 500000)%Z →
  10 <= F64.to_Q (F64.of_Q (inject_Z c / 10 ^ 2))
  ∧ F64.to_Q (F64.of_Q (inject_Z c / 10 ^ 2)) <= 5000.
Proof.
  intros [H0 H1]. rewrite Zle_Qle in H0, H1.
  change (inject_Z 1000) with 1000 in H0.
  change (inject_Z 500000) with 500000 in H1.
  change (10 ^ 2) with 100.
  assert (Hq : inject_Z c / 100 == inject_Z c * (1 # 100)) by reflexivity.
  apply (of_Q_between _ 10 5000).
  - rewrite Hq. lra.
  - rewrite Hq. apply Qle_lt_trans with 5000; [lra | reflexivity].
  - rewrite Hq. change (inject_Z 10) with 10. lra.
  - rewrite Hq. change (inject_Z 5000) with 5000. lra.
Qed.

(** Below [2 ^ 14] a float is within [10 ^ -9] of the rational it rounds. *)
Lemma of_pos_near (q : Q) :
  0 < q → q < 2 ^ 14 →
  F64.to_Q (F64.of_pos q) - q <= 1 # 1000000000
  ∧ q - F64.to_Q (F64.of_pos q) <= 1 # 1000000000.
Proof.
  intros Hq Hbig. rewrite to_Q_of_pos.
  pose proof (ilog2_lt q 14 Hq Hbig) as Hl.
  set (e := expo_of q). assert (He : (e ≤ -39)%Z) by (unfold e, expo_of; lia).
  destruct (rhe_near (q * 2 ^ (- e))) as [H1 H2].
  set (R := inject_Z (F64.rhe (q * 2 ^ (- e)))) in *. clearbody R.
  pose proof (pow2_pos e) as Hp. pose proof (pow2_inv e) as Hinv.
  assert (Hsmall : 2 ^ e <= 1 # 500000000).
  { apply Qle_trans with (2 ^ (-39)); [|by vm_compute].
    apply Qpower_le_compat_l; [done | by vm_compute]. }
  set (P := 2 ^ e) in *. set (P' := 2 ^ (- e)) in *. clearbody P P'.
  assert (Ha : (R - q * P') * P <= (1 # 2) * P).
  { apply Qmult_le_r; done. }
  assert (Hb : (q * P' - R) * P <= (1 # 2) * P).
  { apply Qmult_le_r; done. }
  assert (Hc : q * P' * P == q).
  { rewrite <- Qmult_assoc, Hinv. ring. }
  split; nra.
Qed.

Lemma ilog2_proper (p q : Q) : 0 < p → p == q → F64.ilog2 p = F64.ilog2 q.
Proof.
  intros Hp Hpq. assert (Hq : 0 < q) by (by rewrite <- Hpq).
  destruct (ilog2_spec p Hp) as [H1 H2].
  destruct (ilog2_spec q Hq) as [H3 H4].
  assert (F64.ilog2 p < F64.ilog2 q + 1)%Z.
  { apply (Qpower_lt_compat_l_inv 2); [lra | reflexivity]. }
  assert (F64.ilog2 q < F64.ilog2 p + 1)%Z.
  { apply (Qpower_lt_compat_l_inv 2); [lra | reflexivity]. }
  lia.
Qed.

Lemma rhe_proper (p q : Q) : p == q → F64.rhe p = F64.rhe q.
Proof.
  intros Hpq. unfold F64.rhe. cbv zeta.
  rewrite (Qfloor_comp p q Hpq).
  assert (E : (p - inject_Z (Qfloor q) ?= 1 # 2)
              = (q - inject_Z (Qfloor q) ?= 1 # 2)).
  { apply Qcompare_comp; [|reflexivity]. by rewrite Hpq. }
  by rewrite E.
Qed.

Lemma of_pos_proper (p q : Q) : 0 < p → p == q → F64.of_pos p = F64.of_pos q.
Proof.
  intros Hp Hpq. unfold F64.of_pos.
  rewrite (ilog2_proper p q Hp Hpq).
  set (e := Z.max (F64.ilog2 q - 52) (-1074)).
  assert (E : F64.rhe (p * 2 ^ (- e)) = F64.rhe (q * 2 ^ (- e))).
  { apply rhe_proper. by rewrite Hpq. }
  by rewrite E.
Qed.

Lemma of_Q_pos (q : Q) : 0 < q → F64.of_Q q = F64.of_pos q.
Proof.
  intros Hq. unfold F64.of_Q. destruct q as [[|n|n] d]; try done.
Qed.

Lemma of_Q_proper (p q : Q) : 0 < p → p == q → F64.of_Q p = F64.of_Q q.
Proof.
  intros Hp Hpq. assert (Hq : 0 < q) by (by rewrite <- Hpq).
  rewrite !of_Q_pos by done. by apply of_pos_proper.
Qed.

Lemma of_Q_near (q : Q) :
  0 < q → q < 2 ^ 14 →
  F64.to_Q (F64.of_Q q) - q <= 1 # 1000000000
  ∧ q - F64.to_Q (F64.of_Q q) <= 1 # 1000000000.
Proof. intros Hq Hbig. rewrite of_Q_pos by done. by apply of_pos_near. Qed.

(** *** The position of the decimal point *)

Lemma decpt_decade (q : Q) (pt : Z) :
  (pt = 2%Z ∧ 10 <= q ∧ q < 100)
  ∨ (pt = 3%Z ∧ 100 <= q ∧ q < 1000)
  ∨ (pt = 4%Z ∧ 1000 <= q ∧ q < 10000) →
  F64.decpt q = pt.
Proof.
  intros Hpt.
  assert (Hq : 0 < q) by (destruct Hpt as [H|[H|H]]; lra).
  assert (H8 : 2 ^ 3 <= q) by (destruct Hpt as [H|[H|H]]; lra).
  assert (H14 : q < 2 ^ 14) by (destruct Hpt as [H|[H|H]]; lra).
  pose proof (ilog2_ge q 3 Hq H8) as Hl3.
  pose proof (ilog2_lt q 14 Hq H14) as Hl14.
  destruct (ilog2_spec q Hq) as [Hlo Hhi].
  unfold F64.decpt, F64.pow10. cbv zeta.
  set (l := F64.ilog2 q) in *.
  assert (l = 3 ∨ l = 4 ∨ l = 5 ∨ l = 6 ∨ l = 7 ∨ l = 8 ∨ l = 9
          ∨ l = 10 ∨ l = 11 ∨ l = 12 ∨ l = 13)%Z as Hl by lia.
  clearbody l.
  repeat (destruct Hl as [Hl|Hl]); subst l;
    match goal with
    | |- context [(?a * 30103 / 100000)%Z] =>
        let v := eval vm_compute in (a * 30103 / 100000)%Z in
        change (a * 30103 / 100000)%Z with v
    end;
    repeat match goal with
    | |- context [Qle_bool ?a ?b] =>
        let E := fresh "E" in
        destruct (Qle_bool a b) eqn:E;
        [apply Qle_bool_iff in E
        |assert (¬ a <= b) by (rewrite <- Qle_bool_iff; congruence); clear E]
    end;
    destruct Hpt as [(-> & ? & ?)|[(-> & ? & ?)|(-> & ? & ?)]];
    repeat match goal with
    | H : context [(?a + ?b)%Z] |- _ =>
        let v := eval vm_compute in (a + b)%Z in
        change (a + b)%Z with v in H
    end;
    first [reflexivity | exfalso; lra].
Qed.

End Rounding.

(** *** The digits of an amount of whole cents *)

Section Cents.

Local Open Scope Q_scope.

Variable c : Z.
Hypothesis Hc : (1000 ≤ c ≤ 500000)%Z.

Let v : Q := inject_Z c / 10 ^ 2.
Let x : F64.t := F64.of_Q v.

Lemma cents_Q : v == inject_Z c * (1 # 100).
Proof. reflexivity. Qed.

Lemma cents_Q_bounds : 10 <= v ∧ v <= 5000.
Proof.
  destruct Hc as [H0 H1]. rewrite Zle_Qle in H0, H1.
  change (inject_Z 1000) with 1000 in H0.
  change (inject_Z 500000) with 500000 in H1.
  rewrite cents_Q. split; lra.
Qed.

Lemma cents_near :
  F64.to_Q x - v <= 1 # 1000000000 ∧ v - F64.to_Q x <= 1 # 1000000000.
Proof.
  destruct cents_Q_bounds. apply of_Q_near; [lra|].
  apply Qle_lt_trans with 5000; [done | reflexivity].
Qed.

Lemma reads_as_cents (c' : Z) (u : Q) :
  (0 ≤ c' ≤ 1000000)%Z → u == inject_Z c' * (1 # 100) →
  F64.reads_as x u = (c' =? c)%Z.
Proof.
  intros [H0 H1] Hu. destruct cents_Q_bounds as [Hv0 Hv1].
  destruct cents_near as [Hx0 Hx1]. pose proof cents_Q as Hv.
  rewrite Zle_Qle in H0, H1.
  change (inject_Z 0) with 0 in H0.
  change (inject_Z 1000000) with 1000000 in H1.
  destruct (Z.eqb_spec c' c) as [->|Hne].
  - unfold F64.reads_as. cbv zeta.
    assert (E : F64.of_Q u = x).
    { unfold x. apply of_Q_proper; [lra|]. by rewrite Hu, Hv. }
    rewrite E. by rewrite !Z.eqb_refl.
  - unfold F64.reads_as. cbv zeta.
    destruct (Z.eqb_spec (F64.mant (F64.of_Q u)) (F64.mant x)) as [Em|];
      [|done].
    destruct (Z.eqb_spec (F64.expo (F64.of_Q u)) (F64.expo x)) as [Ee|];
      [|done].
    exfalso.
    assert (E : F64.to_Q (F64.of_Q u) = F64.to_Q x).
    { unfold F64.to_Q. by rewrite Em, Ee. }
    assert (Hbig : u < 2 ^ 14).
    { apply Qle_lt_trans with 10000; [lra | reflexivity]. }
    assert (Hnear : F64.to_Q (F64.of_Q u) - u <= 1 # 1000000000
                    ∧ u - F64.to_Q (F64.of_Q u) <= 1 # 1000000000).
    { destruct (Qlt_le_dec 0 u) as [Hpos|Hneg].
      - by apply of_Q_near.
      - destruct (of_Q_between u 0 0) as [Ha Hb].
        + lra.
        + apply Qlt_trans with (2 ^ 14); [done | reflexivity].
        + change (inject_Z 0) with 0. lra.
        + change (inject_Z 0) with 0. lra.
        + change (inject_Z 0) with 0 in Ha, Hb. split; lra. }
    rewrite E in Hnear. destruct Hnear as [Hn0 Hn1].
    clearbody x. clearbody v.
    assert (c' + 1 ≤ c ∨ c + 1 ≤ c')%Z as [Hlt|Hgt] by lia.
    + rewrite Zle_Qle in Hlt. rewrite inject_Z_plus in Hlt.
      change (inject_Z 1) with 1 in Hlt. lra.
    + rewrite Zle_Qle in Hgt. rewrite inject_Z_plus in Hgt.
      change (inject_Z 1) with 1 in Hgt. lra.
Qed.

Variable q : Q.
Hypothesis Hq : q - v <= 1 # 1000000000 ∧ v - q <= 1 # 1000000000.

Lemma pow10_cents (pt n j : Z) :
  (0 ≤ j)%Z → (pt - n = j - 2)%Z →
  F64.pow10 (pt - n) == inject_Z (10 ^ j) * (1 # 100).
Proof.
  intros Hj ->. unfold F64.pow10.
  rewrite Qpower_minus by discriminate.
  rewrite (Zpower_Qpower 10 j Hj). reflexivity.
Qed.

Lemma candidate_cents (pt n j : Z) :
  (0 ≤ j)%Z → (pt - n = j - 2)%Z → (10 ^ j ≤ c)%Z →
  F64.candidate x q pt n
  = if (c `mod` 10 ^ j =? 0)%Z then Some (c `div` 10 ^ j)%Z else None.
Proof.
  intros Hj Hn HT. unfold F64.candidate. cbv zeta.
  pose proof (pow10_cents pt n j Hj Hn) as Hs.
  set (s := F64.pow10 (pt - n)) in *. clearbody s.
  set (T := (10 ^ j)%Z) in *.
  assert (HT0 : (0 < T)%Z) by (apply Z.pow_pos_nonneg; lia).
  assert (HTq : 0 < inject_Z T).
  { rewrite Zlt_Qlt in HT0. exact HT0. }
  assert (Hs0 : 0 < s) by (rewrite Hs; lra).
  destruct (floor_spec (q / s)) as [Hlo Hhi].
  set (lo := Qfloor (q / s)) in *. clearbody lo.
  assert (Hy : q / s * s == q) by (field; lra).
  assert (H1 : inject_Z lo * s <= q).
  { rewrite <- Hy. apply Qmult_le_r; done. }
  assert (H2 : q < (inject_Z lo + 1) * s).
  { rewrite <- Hy at 1. apply Qmult_lt_r; done. }
  pose proof cents_Q as Hv. destruct Hq as [Hq0 Hq1].
  assert (Hlo' : inject_Z lo * s == inject_Z (lo * T) * (1 # 100)).
  { rewrite inject_Z_mult, Hs. ring. }
  assert (Hhi' : inject_Z (lo + 1) * s == inject_Z ((lo + 1) * T) * (1 # 100)).
  { rewrite inject_Z_mult, Hs. ring. }
  assert (Hhi'' : (inject_Z lo + 1) * s == inject_Z ((lo + 1) * T) * (1 # 100)).
  { rewrite <- Hhi', inject_Z_plus. reflexivity. }
  assert (Ha : (lo * T < c + 1)%Z).
  { rewrite Zlt_Qlt, (inject_Z_plus c 1). change (inject_Z 1) with 1. lra. }
  assert (Hb : (c < (lo + 1) * T + 1)%Z).
  { rewrite Zlt_Qlt, (inject_Z_plus _ 1). change (inject_Z 1) with 1. lra. }
  assert (Hlo0 : (0 ≤ lo)%Z).
  { destruct (Z.le_gt_cases 0 lo) as [|Hneg]; [done|]. exfalso.
    assert ((lo + 1) * T ≤ 0)%Z by (apply Z.mul_nonpos_nonneg; lia). lia. }
  rewrite (reads_as_cents (lo * T)) by (first [exact Hlo' | nia]).
  rewrite (reads_as_cents ((lo + 1) * T)) by (first [exact Hhi' | nia]).
  destruct (Z.eqb_spec (lo * T) c) as [E1|E1],
           (Z.eqb_spec ((lo + 1) * T) c) as [E2|E2].
  - lia.
  - subst c. rewrite Z.mod_mul, Z.div_mul by lia. done.
  - subst c. rewrite Z.mod_mul, Z.div_mul by lia. done.
  - destruct (Z.eqb_spec (c `mod` T) 0) as [E|]; [|done].
    exfalso. pose proof (Z.div_mod c T ltac:(lia)) as Hd.
    rewrite E, (Z.mul_comm T) in Hd.
    assert (lo ≤ c `div` T)%Z
      by (apply (Z.mul_le_mono_pos_r _ _ T); lia).
    assert (c `div` T ≤ lo + 1)%Z
      by (apply (Z.mul_le_mono_pos_r _ _ T); lia).
    assert (c `div` T = lo ∨ c `div` T = lo + 1)%Z as [Hk|Hk] by lia;
      rewrite Hk in Hd; lia.
Qed.

Lemma shortest_cents (pt : Z) (j fuel : nat) (n : Z) :
  (pt - n = Z.of_nat j - 2)%Z → (j < fuel)%nat → (10 ^ Z.of_nat j ≤ c)%Z →
  F64.shortest x q pt n fuel
  = ((c `div` 10 ^ Z.of_nat (trailing c j))%Z,
     (pt + 2 - Z.of_nat (trailing c j))%Z).
Proof.
  revert fuel n. induction j as [|j IH]; intros fuel n Hn Hfuel HT.
  - destruct fuel as [|fuel]; [lia|]. cbn [F64.shortest trailing].
    rewrite (candidate_cents pt n 0) by (first [exact HT | lia]).
    change (10 ^ 0)%Z with 1%Z. rewrite Z.mod_1_r. cbn [Z.eqb].
    apply pair_equal_spec. split; [reflexivity | lia].
  - destruct fuel as [|fuel]; [lia|]. cbn [F64.shortest trailing].
    rewrite (candidate_cents pt n (Z.of_nat (S j)))
      by (first [exact HT | lia]).
    destruct (c `mod` 10 ^ Z.of_nat (S j) =? 0)%Z.
    + apply pair_equal_spec. split; [reflexivity | lia].
    + apply IH; [lia | lia |].
      etransitivity; [|exact HT].
      apply Z.pow_le_mono_r; lia.
Qed.

End Cents.

Lemma trailing_div (c : Z) (j : nat) : c `mod` 10 ^ Z.of_nat (trailing c j) = 0.
Proof.
  induction j as [|j IH]; cbn [trailing].
  - apply Z.mod_1_r.
  - by destruct (Z.eqb_spec (c `mod` 10 ^ Z.of_nat (S j)) 0).
Qed.

Lemma trailing_max (c : Z) (j k : nat) :
  (trailing c j < k ≤ j)%nat → c `mod` 10 ^ Z.of_nat k ≠ 0.
Proof.
  induction j as [|j IH]; cbn [trailing]; [lia|].
  destruct (Z.eqb_spec (c `mod` 10 ^ Z.of_nat (S j)) 0) as [|Hne]; [lia|].
  intros Hk. destruct (decide (k = S j)) as [->|]; [done|].
  apply IH. lia.
Qed.

Lemma trailing_le (c : Z) (j : nat) : (trailing c j ≤ j)%nat.
Proof.
  induction j as [|j IH]; cbn [trailing]; [done|].
  destruct (_ =? _); lia.
Qed.

Lemma layout_frac (d n pt : Z) :
  0 < pt ≤ 16 → pt < n →
  F64.layout d n pt
  = zpad (Z.to_nat pt) (d / 10 ^ (n - pt)) +:+ "."
    +:+ zpad (Z.to_nat (n - pt)) d.
Proof.
  intros Hpt Hn. unfold F64.layout.
  destruct (Z.leb_spec pt (-4)); [lia|]. destruct (Z.ltb_spec 16 pt); [lia|].
  cbn [orb]. destruct (Z.leb_spec pt 0); [lia|].
  by destruct (Z.ltb_spec pt n); [|lia].
Qed.

Lemma layout_int (d n pt : Z) :
  0 < pt ≤ 16 → n ≤ pt →
  F64.layout d n pt = zpad (Z.to_nat n) d +:+ zeros (pt - n) +:+ ".0".
Proof.
  intros Hpt Hn. unfold F64.layout.
  destruct (Z.leb_spec pt (-4)); [lia|]. destruct (Z.ltb_spec 16 pt); [lia|].
  cbn [orb]. destruct (Z.leb_spec pt 0); [lia|].
  by destruct (Z.ltb_spec pt n); [lia|].
Qed.

Lemma string_app_assoc (a b c : string) : (a +:+ b) +:+ c = a +:+ b +:+ c.
Proof.
  induction a as [|x a IH]; [done|].
  by rewrite !string_app_cons, IH.
Qed.

Lemma zpad_S (w : nat) (n : Z) :
  zpad (S w) n = zpad w (n / 10) +:+ String (digit (n `mod` 10)) "".
Proof. reflexivity. Qed.

Lemma zpad_zeros (w k : nat) (v : Z) :
  zpad (w + k) (v * 10 ^ Z.of_nat k) = zpad w v +:+ zpad k 0.
Proof.
  induction k as [|k IH].
  - rewrite Nat.add_0_r, Z.mul_1_r. cbn [zpad]. by rewrite string_app_empty_r.
  - rewrite Nat.add_succ_r, !zpad_S.
    replace (v * 10 ^ Z.of_nat (S k)) with (v * 10 ^ Z.of_nat k * 10).
    2:{ rewrite Nat2Z.inj_succ, Z.pow_succ_r by lia. lia. }
    rewrite Z.div_mul, Z.mod_mul by lia.
    rewrite IH, string_app_assoc. done.
Qed.

Lemma mk_eta (y : F64.t) : F64.mk (F64.mant y) (F64.expo y) = y.
Proof. by destruct y. Qed.

Lemma cents_floor (c A : Z) :
  1000 ≤ c ≤ 500000 → 0 ≤ A → A * 100 ≤ c →
  (inject_Z A <= F64.to_Q (F64.of_Q (inject_Z c / 10 ^ 2)))%Q.
Proof.
  intros Hc HA0 HA. destruct (cents_Q_bounds c Hc) as [Hv0 Hv1].
  pose proof (cents_Q c) as Hv.
  rewrite Zle_Qle, inject_Z_mult in HA. change (inject_Z 100) with 100%Q in HA.
  apply (of_Q_between _ A 5000).
  - lra.
  - apply Qle_lt_trans with 5000%Q; [done | reflexivity].
  - rewrite Hv. lra.
  - done.
Qed.

Lemma repr_cents (c : Z) :
  1000 ≤ c ≤ 500000 →
  F64.repr (F64.of_Q (inject_Z c / 10 ^ 2)) = cents_literal c.
Proof.
  intros Hc.
  destruct (cents_Q_bounds c Hc) as [Hv0 Hv1].
  destruct (cents_near c Hc) as [Hn0 Hn1].
  pose proof (cents_Q c) as Hv.
  pose proof (cents_floor c 10 Hc ltac:(lia) ltac:(lia)) as Hx0.
  change (inject_Z 10) with 10%Q in Hx0.
  set (v := (inject_Z c / 10 ^ 2)%Q) in *.
  set (x := F64.of_Q v) in *.
  assert (Hm : 0 < F64.mant x).
  { destruct (Z.lt_ge_cases 0 (F64.mant x)) as [|Hneg]; [done|]. exfalso.
    unfold F64.to_Q in Hx0. rewrite Zle_Qle in Hneg.
    change (inject_Z 0) with 0%Q in Hneg.
    pose proof (pow2_pos (F64.expo x)). nra. }
  unfold F64.repr.
  destruct (F64.mant x) as [|p|p] eqn:Em; [lia| |lia].
  cbv zeta. change (Z.abs (Z.pos p)) with (Z.pos p).
  change (Z.pos p <? 0) with false. cbv iota.
  rewrite <- Em, mk_eta.
  set (q := Qabs (F64.to_Q x)).
  assert (Hqx : (q == F64.to_Q x)%Q) by (apply Qabs_pos; lra).
  assert (Hq : (q - v <= 1 # 1000000000 ∧ v - q <= 1 # 1000000000)%Q).
  { rewrite Hqx. done. }
  set (pt := pt_of c).
  assert (Hpt : F64.decpt q = pt).
  { apply decpt_decade. unfold pt, pt_of.
    destruct (Z.ltb_spec c 10000) as [H1|H1];
      [|destruct (Z.ltb_spec c 100000) as [H2|H2]].
    - left. split; [done|]. rewrite Hqx. split; [done|].
      assert (c + 1 ≤ 10000) as H by lia.
      rewrite Zle_Qle, inject_Z_plus in H.
      change (inject_Z 1) with 1%Q in H.
      change (inject_Z 10000) with 10000%Q in H. clearbody x v. lra.
    - right. left. split; [done|]. rewrite Hqx. split.
      + apply (cents_floor c 100 Hc); lia.
      + assert (c + 1 ≤ 100000) as H by lia.
        rewrite Zle_Qle, inject_Z_plus in H.
        change (inject_Z 1) with 1%Q in H.
        change (inject_Z 100000) with 100000%Q in H. clearbody x v. lra.
    - right. right. split; [done|]. rewrite Hqx. split.
      + apply (cents_floor c 1000 Hc); lia.
      + clearbody x v. lra. }
  rewrite Hpt.
  assert (Hpt3 : pt = 2 ∨ pt = 3 ∨ pt = 4).
  { unfold pt, pt_of. repeat case_match; lia. }
  assert (Hlow : 10 ^ (pt + 1) ≤ c ∧ c < 10 ^ (pt + 2)).
  { unfold pt, pt_of.
    destruct (Z.ltb_spec c 10000); [|destruct (Z.ltb_spec c 100000)];
      cbn; lia. }
  set (j := Z.to_nat (pt + 1)).
  assert (Hs := shortest_cents c Hc q Hq pt j 17 1).
  fold v in Hs. fold x in Hs.
  rewrite Hs by (unfold j; first [lia | rewrite Z2Nat.id by lia; apply Hlow]).
  clear Hs.
  pose proof (trailing_div c j) as Hdiv.
  pose proof (trailing_max c j) as Hmax.
  pose proof (trailing_le c j) as Hle.
  set (J := trailing c j) in *. clearbody J.
  clear Hpt Hq Hqx q Em Hm p Hx0 Hv Hn0 Hn1 x Hv0 Hv1 v.
  rewrite string_app_empty_l.
  assert (HJ : c = c `div` 10 ^ Z.of_nat J * 10 ^ Z.of_nat J).
  { pose proof (Z.div_mod c (10 ^ Z.of_nat J) ltac:(lia)). lia. }
  assert (Hd : c `div` 10 ^ Z.of_nat J < 10 ^ (pt + 2 - Z.of_nat J)).
  { apply Z.div_lt_upper_bound; [lia|].
    rewrite <- Z.pow_add_r by (unfold j in Hle; lia).
    replace (Z.of_nat J + (pt + 2 - Z.of_nat J)) with (pt + 2) by lia.
    apply Hlow. }
  destruct (Z.eqb_spec (c `div` 10 ^ Z.of_nat J)
              (10 ^ (pt + 2 - Z.of_nat J))) as [|_]; [lia|].
  unfold cents_literal. fold pt.
  destruct J as [|[|k]].
  - rewrite layout_frac by lia.
    replace (pt + 2 - Z.of_nat 0 - pt) with 2 by lia.
    change (10 ^ Z.of_nat 0) with 1. rewrite Z.div_1_r.
    destruct (Z.eqb_spec (c `mod` 10) 0) as [E|]; [|reflexivity].
    exfalso. apply (Hmax 1%nat); [unfold j; lia | exact E].
  - rewrite layout_frac by lia.
    replace (pt + 2 - Z.of_nat 1 - pt) with 1 by lia.
    change (10 ^ Z.of_nat 1) with 10 in *. change (10 ^ 1) with 10.
    rewrite Z.div_div by lia. rewrite Hdiv. reflexivity.
  - rewrite layout_int by lia.
    set (d := c `div` 10 ^ Z.of_nat (S (S k))) in *.
    assert (Hc' : c = d * 10 ^ Z.of_nat k * 100).
    { rewrite HJ at 1. rewrite !Nat2Z.inj_succ, !Z.pow_succ_r by lia. lia. }
    clearbody d.
    assert (H100 : c / 100 = d * 10 ^ Z.of_nat k).
    { rewrite Hc'. apply Z.div_mul. lia. }
    assert (H10 : c / 10 = d * 10 ^ Z.of_nat k * 10).
    { rewrite Hc'. replace (d * 10 ^ Z.of_nat k * 100)
        with (d * 10 ^ Z.of_nat k * 10 * 10) by lia.
      apply Z.div_mul. lia. }
    assert (Hm10 : c `mod` 10 = 0).
    { rewrite Hc'. replace (d * 10 ^ Z.of_nat k * 100)
        with (d * 10 ^ Z.of_nat k * 10 * 10) by lia.
      apply Z.mod_mul. lia. }
    rewrite Hm10, H100, H10. cbn [Z.eqb].
    rewrite zpad_S. cbn [zpad]. rewrite Z.mod_mul by lia.
    replace (Z.to_nat pt)
      with (Z.to_nat (pt + 2 - Z.of_nat (S (S k))) + k)%nat
      by (unfold j in Hle; lia).
    rewrite zpad_zeros, string_app_assoc.
    unfold zeros.
    replace (Z.to_nat (pt - (pt + 2 - Z.of_nat (S (S k))))) with k by lia.
    reflexivity.
Qed.

(** *** Fractional digits *)

Lemma digit_not_point (d : Z) : 0 ≤ d < 10 → digit d ≠ "."%char.
Proof.
  intros H. assert (E : d = Z.of_nat (Z.to_nat d)) by lia.
  set (m := Z.to_nat d) in E. clearbody m. subst d.
  do 10 (destruct m as [|m]; [done|]). lia.
Qed.

Lemma fraction_digits_zpad (w : nat) (n : Z) (t : string) :
  fraction_digits (zpad w n +:+ t) = fraction_digits t.
Proof.
  revert n t. induction w as [|w IH]; intros n t; [done|].
  rewrite zpad_S, string_app_assoc, IH, string_app_cons, string_app_empty_l.
  cbn [fraction_digits].
  rewrite bool_decide_eq_false_2; [done|].
  apply digit_not_point, Z.mod_pos_bound. lia.
Qed.

Lemma fraction_digits_cents (c : Z) :
  fraction_digits (cents_literal c) = if c `mod` 10 =? 0 then 1%nat else 2%nat.
Proof.
  unfold cents_literal. rewrite fraction_digits_zpad.
  rewrite string_app_cons, string_app_empty_l. cbn [fraction_digits].
  rewrite bool_decide_eq_true_2 by done.
  by destruct (c `mod` 10 =? 0).
Qed.

Lemma amount_literal (r : Z) :
  (10 <= F64.to_Q (amount_of_draw r))%Q
  ∧ (F64.to_Q (amount_of_draw r) <= 5000)%Q
  ∧ ∃ c, 1000 ≤ c ≤ 500000
      ∧ amount_of_draw r = F64.of_Q (inject_Z c / 10 ^ 2)
      ∧ F64.repr (amount_of_draw r) = cents_literal c
      ∧ fraction_digits (F64.repr (amount_of_draw r))
        = if c `mod` 10 =? 0 then 1%nat else 2%nat.
Proof.
  destruct (amount_cents r) as (c & Hc & E). rewrite E.
  destruct (cents_between c Hc) as [H0 H1].
  split; [exact H0|]. split; [exact H1|].
  exists c. split; [exact Hc|]. split; [reflexivity|].
  rewrite (repr_cents c Hc). split; [reflexivity|].
  apply fraction_digits_cents.
Qed.

(** C8, as the code has it.  Every generated payment has an amount between
    10.00 and 5000.00 that is the float nearest to a whole number [c] of
    cents.  The loader renders it with the bare field [{p[4]}], Python's
    shortest float literal, which drops a closing zero: the literal has one
    fractional digit when [c] is a multiple of ten and two otherwise. *)
Theorem C8_amount_range_and_literal (count max_order_id : Z) (w : world) :
  1 ≤ max_order_id →
  ∃ payments w',
    generate_payments count max_order_id w = (Returns payments, w')
    ∧ Forall (λ p,
        (10 <= F64.to_Q (p_amount p))%Q
        ∧ (F64.to_Q (p_amount p) <= 5000)%Q
        ∧ ∃ c, 1000 ≤ c ≤ 500000
            ∧ p_amount p = F64.of_Q (inject_Z c / 10 ^ 2)
            ∧ render_payment p
              = "(" +:+ pretty (p_id p) +:+ ", " +:+ pretty (p_order_id p)
                +:+ ", '" +:+ p_method p +:+ "', '" +:+ p_status p +:+ "', "
                +:+ cents_literal c +:+ ", '" +:+ strftime (p_created p)
                +:+ "')"
            ∧ fraction_digits (F64.repr (p_amount p))
              = if c `mod` 10 =? 0 then 1%nat else 2%nat) payments.
Proof.
  intros Hm.
  destruct (collect_issues _ _ _ _ (new_payment_issues _ Hm)
              (range_len count) w)
    as (l & w' & Hrun & _ & _ & HF & _).
  exists l, w'. split; [exact Hrun|].
  eapply Forall_impl; [exact HF|].
  intros p [_ [r Hr]].
  destruct (amount_literal r) as (H0 & H1 & c & Hc & E & Hrepr & Hfd).
  rewrite <- Hr in *.
  split; [exact H0|]. split; [exact H1|].
  exists c. split; [exact Hc|]. split; [exact E|].
  split; [|exact Hfd].
  unfold render_payment. by rewrite Hrepr.
Qed.

Lemma C8_amount_range_and_literal_witness :
  ∃ payments w',
    generate_payments 2 3 (sample_world []) = (Returns payments, w')
    ∧ Forall (λ p,
        (10 <= F64.to_Q (p_amount p))%Q
        ∧ (F64.to_Q (p_amount p) <= 5000)%Q
        ∧ ∃ c, 1000 ≤ c ≤ 500000
            ∧ p_amount p = F64.of_Q (inject_Z c / 10 ^ 2)
            ∧ render_payment p
              = "(" +:+ pretty (p_id p) +:+ ", " +:+ pretty (p_order_id p)
                +:+ ", '" +:+ p_method p +:+ "', '" +:+ p_status p +:+ "', "
                +:+ cents_literal c +:+ ", '" +:+ strftime (p_created p)
                +:+ "')"
            ∧ fraction_digits (F64.repr (p_amount p))
              = if c `mod` 10 =? 0 then 1%nat else 2%nat) payments.
Proof.
  apply (C8_amount_range_and_literal 2 3 (sample_world [])). lia.
Defined.

(** C8 as stated fails: when [random.random()] returns [0.0] the amount is
    [10.0], and its literal in the [VALUES] list is [10.0], with one
    fractional digit. *)
Lemma C8_counterexample :
  match
    (generate_payments 1 1 (boot zero_draws sample_faker [] sample_ticks)).1
  with
  | Returns [p] =>
      F64.repr (p_amount p) = "10.0"
      ∧ fraction_digits (F64.repr (p_amount p)) = 1%nat
      ∧ render_payment p
        = "(1, 1, 'credit_card', 'pending', 10.0, '2024-01-01 00:00:00')"
  | _ => False
  end.
Proof. vm_compute. repeat split. Qed.
